(** * Keyboard shortcut registry and display-key resolution

    A shallow embedding of [apps/mail/config/shortcuts.ts]: the static
    registry of shortcuts, [getDisplayKeysForShortcut] and
    [enhanceShortcutsWithMapping], together with the properties the
    specification states about them.

    Conventions of the embedding:
    - a JavaScript string is the list of its UTF-16 code units, so that
      [length] is the [.length] of the source;
    - the built-ins [toLowerCase] / [toUpperCase] and [navigator.platform]
      are fields of a [Host] record: the theorems hold for every host;
    - the two imported modules ([keyboardLayoutMapper], [getKeyCodeFromKey])
      are not part of this file's source; they are parameters, and each of
      their operations may complete normally or throw;
    - every call to an imported operation is recorded in a call log, so that
      "this service is not consulted" is a statement about the log;
    - the imported operations are functions of their arguments: within one
      run the detector gives the same answer each time it is asked. *)

From Stdlib Require Import String Ascii NArith Bool Arith Lia List.
Import ListNotations.

Set Implicit Arguments.

(* ================================================================== *)
(** * JavaScript strings *)
(* ================================================================== *)

Module JS.

(** One UTF-16 code unit. *)
Definition code_unit : Type := N.

(** A string value: its sequence of code units. *)
Definition jsstring : Type := list code_unit.

(** An ASCII literal of the source, as a string value. *)
Fixpoint js (s : string) : jsstring :=
  match s with
  | EmptyString => []
  | String a rest => N_of_ascii a :: js rest
  end.

(** [a === b] on strings. *)
Fixpoint eqb (a b : jsstring) : bool :=
  match a, b with
  | [], [] => true
  | x :: a', y :: b' => N.eqb x y && eqb a' b'
  | _, _ => false
  end.

(** [s.startsWith(p)]: helper of [includes]. *)
Fixpoint startsWith (s p : jsstring) : bool :=
  match p, s with
  | [], _ => true
  | _ :: _, [] => false
  | y :: p', x :: s' => N.eqb x y && startsWith s' p'
  end.

(** [s.includes(p)]: [p] occurs in [s] as a contiguous run of code units. *)
Fixpoint includes (s p : jsstring) : bool :=
  startsWith s p
  || match s with
     | [] => false
     | _ :: s' => includes s' p
     end.

(** The glyphs the source writes as non-ASCII literals; each is a single
    code unit of the Basic Multilingual Plane. *)
Definition glyph_command   : jsstring := [8984%N].  (* U+2318 *)
Definition glyph_option    : jsstring := [8997%N].  (* U+2325 *)
Definition glyph_shift     : jsstring := [8679%N].  (* U+21E7 *)
Definition glyph_backspace : jsstring := [9003%N].  (* U+232B *)
Definition glyph_enter     : jsstring := [8629%N].  (* U+21B5 *)

(** Case mapping restricted to ASCII letters.  On a string of ASCII code
    units this is what [String.prototype.toLowerCase] / [toUpperCase]
    compute; other code units are left alone, so these two functions are
    only used on ASCII inputs (in examples). *)
Definition ascii_lower (c : code_unit) : code_unit :=
  if (N.leb 65 c && N.leb c 90)%bool then (c + 32)%N else c.

Definition ascii_upper (c : code_unit) : code_unit :=
  if (N.leb 97 c && N.leb c 122)%bool then (c - 32)%N else c.

End JS.

Import JS.

Infix "===" := JS.eqb (at level 70, no associativity).

(** The part of the JavaScript host the module reads: the two case-mapping
    built-ins and the ambient [navigator.platform] string. *)
Record Host : Type := {
  toLowerCase : jsstring -> jsstring;
  toUpperCase : jsstring -> jsstring;
  platform    : jsstring
}.

(** A host whose case mapping is the ASCII one. *)
Definition asciiHost (navigatorPlatform : jsstring) : Host :=
  {| toLowerCase := map ascii_lower;
     toUpperCase := map ascii_upper;
     platform    := navigatorPlatform |}.

(* ================================================================== *)
(** * Data model *)
(* ================================================================== *)

(** [z.enum(['single', 'combination'])] *)
Inductive ShortcutType : Type := single | combination.

(** [shortcutSchema]; the two optional fields are absent ([None]) or set. *)
Record Shortcut : Type := {
  keys           : list jsstring;
  action         : jsstring;
  type           : ShortcutType;
  description    : jsstring;
  scope          : jsstring;
  preventDefault : option bool;
  ignore         : option bool
}.

(** [interface EnhancedShortcut extends Shortcut]: the seven inherited
    fields and the two declared-optional additions. *)
Record EnhancedShortcut : Type := {
  e_keys           : list jsstring;
  e_action         : jsstring;
  e_type           : ShortcutType;
  e_description    : jsstring;
  e_scope          : jsstring;
  e_preventDefault : option bool;
  e_ignore         : option bool;
  mappedKeys       : option (list jsstring);
  displayKeys      : option (list jsstring)
}.

(** What [getDetectedLayout()] hands back when a layout is known. *)
Record DetectedLayout : Type := { layout : jsstring }.

(* ================================================================== *)
(** * Calls into the imported modules *)
(* ================================================================== *)

(** How an operation ends: with a value, or by throwing. *)
Inductive completion (A : Type) : Type :=
| Normal (a : A)
| Throw.
Arguments Throw {A}.

(** [keyboardLayoutMapper], from ['../utils/keyboard-layout-map']. *)
Record KeyboardLayoutMapper (KeyCode : Type) : Type := {
  getDetectedLayout : completion (option DetectedLayout);
  getKeyForCode     : KeyCode -> completion jsstring;
  mapKeys           : list KeyCode -> completion (list jsstring)
}.

(** One call to an imported operation, with its argument. *)
Inductive Call (KeyCode : Type) : Type :=
| CallGetDetectedLayout
| CallGetKeyCodeFromKey (key : jsstring)
| CallGetKeyForCode (code : KeyCode)
| CallMapKeys (codes : list KeyCode).
Arguments CallGetDetectedLayout {KeyCode}.
Arguments CallGetKeyCodeFromKey {KeyCode} key.

(** A computation: the calls it made, in order, and how it ended. *)
Definition Eff (KeyCode A : Type) : Type := (list (Call KeyCode) * completion A)%type.

Definition calls {K A} (m : Eff K A) : list (Call K) := fst m.
Definition outcome {K A} (m : Eff K A) : completion A := snd m.

Definition ret {K A} (a : A) : Eff K A := ([], Normal a).

Definition bind {K A B} (m : Eff K A) (f : A -> Eff K B) : Eff K B :=
  match m with
  | (log, Throw) => (log, Throw)
  | (log, Normal a) => let (log', r) := f a in (log ++ log', r)
  end.

Notation "x <- m ;; k" := (bind m (fun x => k))
  (at level 61, m at next level, right associativity).

(** [array.map(f)]: [f] on each element from left to right; a throw of
    [f] ends the whole [map]. *)
Fixpoint mapM {K A B} (f : A -> Eff K B) (l : list A) : Eff K (list B) :=
  match l with
  | [] => ret []
  | a :: rest =>
      b <- f a ;;
      bs <- mapM f rest ;;
      ret (b :: bs)
  end.

(* ================================================================== *)
(** * The two functions *)
(* ================================================================== *)

Section Resolver.

Variable KeyCode : Type.
Variable host : Host.
Variable keyboardLayoutMapper : KeyboardLayoutMapper KeyCode.
(** [getKeyCodeFromKey], from ['../utils/keyboard-utils']; it reads its
    first argument only, so it can be handed to [map] as it is. *)
Variable getKeyCodeFromKey : jsstring -> completion KeyCode.

Definition call_getDetectedLayout : Eff KeyCode (option DetectedLayout) :=
  ([CallGetDetectedLayout], getDetectedLayout keyboardLayoutMapper).

Definition call_getKeyCodeFromKey (key : jsstring) : Eff KeyCode KeyCode :=
  ([CallGetKeyCodeFromKey key], getKeyCodeFromKey key).

Definition call_getKeyForCode (code : KeyCode) : Eff KeyCode jsstring :=
  ([CallGetKeyForCode code], getKeyForCode keyboardLayoutMapper code).

Definition call_mapKeys (codes : list KeyCode) : Eff KeyCode (list jsstring) :=
  ([CallMapKeys codes], mapKeys keyboardLayoutMapper codes).

(** [detectedLayout?.layout && detectedLayout.layout !== 'qwerty']:
    an absent layout object and an empty identifier are both falsy. *)
Definition layoutIsRemapped (detectedLayout : option DetectedLayout) : bool :=
  match detectedLayout with
  | None => false
  | Some d =>
      negb (Nat.eqb (length (layout d)) 0) && negb (layout d === js "qwerty")
  end.

(** The callback of [shortcut.keys.map(key => ...)]: the [switch] on
    [key.toLowerCase()], its cases in source order. *)
Definition displayKey (detectedLayout : option DetectedLayout)
           (key : jsstring) : Eff KeyCode jsstring :=
  let k := toLowerCase host key in
  if k === js "mod" then
    ret (if includes (platform host) (js "Mac") then glyph_command else js "Ctrl")
  else if k === js "meta" then
    ret glyph_command
  else if (k === js "ctrl") || (k === js "control") then
    ret (js "Ctrl")
  else if k === js "alt" then
    ret (if includes (platform host) (js "Mac") then glyph_option else js "Alt")
  else if k === js "shift" then
    ret glyph_shift
  else if k === js "escape" then
    ret (js "Esc")
  else if k === js "backspace" then
    ret glyph_backspace
  else if k === js "enter" then
    ret glyph_enter
  else if k === js "space" then
    ret (js "Space")
  else
    if layoutIsRemapped detectedLayout then
      keyCode <- call_getKeyCodeFromKey key ;;
      mappedKey <- call_getKeyForCode keyCode ;;
      ret (if Nat.eqb (length mappedKey) 1 then toUpperCase host mappedKey
           else mappedKey)
    else
      ret (if Nat.eqb (length key) 1 then toUpperCase host key else key).

Definition getDisplayKeysForShortcut (shortcut : Shortcut) : Eff KeyCode (list jsstring) :=
  detectedLayout <- call_getDetectedLayout ;;
  mapM (displayKey detectedLayout) (keys shortcut).

(** [{ ...shortcut }]: the own fields of the record, nothing added yet. *)
Definition spread (shortcut : Shortcut) : EnhancedShortcut :=
  {| e_keys := keys shortcut;
     e_action := action shortcut;
     e_type := type shortcut;
     e_description := description shortcut;
     e_scope := scope shortcut;
     e_preventDefault := preventDefault shortcut;
     e_ignore := ignore shortcut;
     mappedKeys := None;
     displayKeys := None |}.

Definition set_displayKeys (e : EnhancedShortcut) (v : list jsstring) :=
  {| e_keys := e_keys e; e_action := e_action e; e_type := e_type e;
     e_description := e_description e; e_scope := e_scope e;
     e_preventDefault := e_preventDefault e; e_ignore := e_ignore e;
     mappedKeys := mappedKeys e;
     displayKeys := Some v |}.

Definition set_mappedKeys (e : EnhancedShortcut) (v : list jsstring) :=
  {| e_keys := e_keys e; e_action := e_action e; e_type := e_type e;
     e_description := e_description e; e_scope := e_scope e;
     e_preventDefault := e_preventDefault e; e_ignore := e_ignore e;
     mappedKeys := Some v;
     displayKeys := displayKeys e |}.

(** The callback of [shortcuts.map(shortcut => ({ ... }))]; the object
    literal is evaluated left to right. *)
Definition enhanceShortcut (shortcut : Shortcut) : Eff KeyCode EnhancedShortcut :=
  let e0 := spread shortcut in
  dks <- getDisplayKeysForShortcut shortcut ;;
  let e1 := set_displayKeys e0 dks in
  codes <- mapM call_getKeyCodeFromKey (keys shortcut) ;;
  mks <- call_mapKeys codes ;;
  ret (set_mappedKeys e1 mks).

Definition enhanceShortcutsWithMapping (shortcuts : list Shortcut)
  : Eff KeyCode (list EnhancedShortcut) :=
  mapM enhanceShortcut shortcuts.

(** The imported operations always complete normally. *)
Definition services_total : Prop :=
  (exists d, getDetectedLayout keyboardLayoutMapper = Normal d)
  /\ (forall key, exists code, getKeyCodeFromKey key = Normal code)
  /\ (forall code, exists label,
         getKeyForCode keyboardLayoutMapper code = Normal label)
  /\ (forall codes, exists labels,
         mapKeys keyboardLayoutMapper codes = Normal labels).

End Resolver.

(** The key names the [switch] gives a case of their own. *)
Definition fixedKeyNames : list jsstring :=
  [js "mod"; js "meta"; js "ctrl"; js "control"; js "alt"; js "shift";
   js "escape"; js "backspace"; js "enter"; js "space"].

(** The upcast of an enhanced record to the record it extends. *)
Definition toShortcut (e : EnhancedShortcut) : Shortcut :=
  {| keys := e_keys e; action := e_action e; type := e_type e;
     description := e_description e; scope := e_scope e;
     preventDefault := e_preventDefault e; ignore := e_ignore e |}.

(* ================================================================== *)
(** * The registry *)
(* ================================================================== *)

(** A record literal without the two optional fields. *)
Definition mk (ks : list string) (a : string) (t : ShortcutType)
           (d sc : string) : Shortcut :=
  {| keys := map js ks; action := js a; type := t; description := js d;
     scope := js sc; preventDefault := None; ignore := None |}.

(** [{ ..., preventDefault: true }] *)
Definition withPreventDefault (s : Shortcut) : Shortcut :=
  {| keys := keys s; action := action s; type := type s;
     description := description s; scope := scope s;
     preventDefault := Some true; ignore := ignore s |}.

(** [{ ..., ignore: true }] *)
Definition withIgnore (s : Shortcut) : Shortcut :=
  {| keys := keys s; action := action s; type := type s;
     description := description s; scope := scope s;
     preventDefault := preventDefault s; ignore := Some true |}.

Local Open Scope string_scope.

Definition threadDisplayShortcuts : list Shortcut :=
  [
    mk ["r"] "reply" single "Reply to email" "thread-display";
    mk ["a"] "replyAll" single "Reply all" "thread-display";
    mk ["f"] "forward" single "Forward email" "thread-display";
    mk ["meta"; "backspace"] "delete" single "Move to Bin" "thread-display"
  ].

Definition navigation : list Shortcut :=
  [
    mk ["g"; "d"] "goToDrafts" combination "Go to drafts" "navigation";
    mk ["g"; "i"] "inbox" combination "Go to inbox" "navigation";
    mk ["g"; "t"] "sentMail" combination "Go to sent mail" "navigation";
    mk ["g"; "s"] "goToSettings" combination "Go to general settings" "navigation";
    mk ["g"; "a"] "goToArchive" combination "Go to archive" "navigation";
    mk ["g"; "b"] "goToBin" combination "Go to bin" "navigation";
    mk ["?"; "shift"] "helpWithShortcuts" combination "Show keyboard shortcuts" "navigation"
  ].

Definition globalShortcuts : list Shortcut :=
  [
    withPreventDefault (mk ["mod"; "z"] "undoLastAction" single "Undo last action" "global");
    mk ["v"] "openVoice" single "Open voice" "global";
    withPreventDefault (mk ["c"] "newEmail" single "Compose new email" "global");
    mk ["mod"; "k"] "commandPalette" combination "Open command palette" "global";
    withPreventDefault (mk ["mod"; "shift"; "f"] "clearAllFilters" combination "Clear all filters" "global")
  ].

Definition mailListShortcuts : list Shortcut :=
  [
    mk ["r"] "markAsRead" single "Mark as read" "mail-list";
    mk ["u"] "markAsUnread" single "Mark as unread" "mail-list";
    mk ["i"] "markAsImportant" single "Mark as important" "mail-list";
    mk ["a"] "bulkArchive" single "Bulk archive" "mail-list";
    mk ["d"] "bulkDelete" single "Bulk delete" "mail-list";
    mk ["s"] "bulkStar" single "Bulk star" "mail-list";
    mk ["e"] "archiveEmail" single "Archive email" "mail-list";
    mk ["escape"] "exitSelectionMode" single "Exit selection mode" "mail-list";
    withPreventDefault (mk ["mod"; "a"] "selectAll" combination "Select all emails" "mail-list");
    mk ["1"] "showImportant" single "Show important" "mail-list";
    mk ["2"] "showAllMail" single "Show all mail" "mail-list";
    mk ["3"] "showPersonal" single "Show personal" "mail-list";
    mk ["4"] "showUpdates" single "Show updates" "mail-list";
    mk ["5"] "showPromotions" single "Show promotions" "mail-list";
    mk ["6"] "showUnread" single "Show unread" "mail-list";
    withIgnore (mk ["alt"; "shift"; "click"] "selectUnderCursor" combination "Select under cursor" "mail-list")
  ].

Definition composeShortcuts : list Shortcut :=
  [
    mk ["mod"; "Enter"] "sendEmail" combination "Send email" "compose";
    mk ["escape"] "closeCompose" single "Close compose" "compose"
  ].

Local Close Scope string_scope.

Definition keyboardShortcuts : list Shortcut :=
  navigation
  ++ threadDisplayShortcuts
  ++ globalShortcuts
  ++ mailListShortcuts
  ++ composeShortcuts.

(** [enhancedKeyboardShortcuts], the registry enhanced at module load. *)
Definition enhancedKeyboardShortcuts (KeyCode : Type) (host : Host)
           (keyboardLayoutMapper : KeyboardLayoutMapper KeyCode)
           (getKeyCodeFromKey : jsstring -> completion KeyCode)
  : Eff KeyCode (list EnhancedShortcut) :=
  enhanceShortcutsWithMapping host keyboardLayoutMapper getKeyCodeFromKey
                              keyboardShortcuts.

(* ================================================================== *)
(** * A sample of the imported modules *)
(* ================================================================== *)

Module Sample.

(** Modelled from the spec: [getKeyCodeFromKey] of
    ['../utils/keyboard-utils'] is missing from the sources at hand.  The
    specification only asks that it be total and turn a key name into a
    raw code; this sample sends a one-character name [x] to the code
    [KeyX] and hands any other name back unchanged. *)
Definition getKeyCodeFromKey (key : jsstring) : completion jsstring :=
  Normal (if Nat.eqb (length key) 1
          then js "Key" ++ map ascii_upper key
          else key).

(** The label an AZERTY keyboard carries on the key with the given code:
    A/Q and Z/W change places, every other [KeyX] shows [x], and an
    unknown code passes through. *)
Definition azertyLabel (code : jsstring) : jsstring :=
  if code === js "KeyA" then js "q"
  else if code === js "KeyQ" then js "a"
  else if code === js "KeyZ" then js "w"
  else if code === js "KeyW" then js "z"
  else if startsWith code (js "Key") && Nat.eqb (length code) 4
       then map ascii_lower (skipn 3 code)
       else code.

(** Modelled from the spec: [keyboardLayoutMapper] of
    ['../utils/keyboard-layout-map'] is missing from the sources at hand.
    The specification asks for total operations, [mapKeys] keeping the
    number and order of its input; this sample reports the given layout
    and labels codes as an AZERTY keyboard does. *)
Definition mapper (detected : option DetectedLayout)
  : KeyboardLayoutMapper jsstring :=
  {| getDetectedLayout := Normal detected;
     getKeyForCode := fun code => Normal (azertyLabel code);
     mapKeys := fun codes => Normal (map azertyLabel codes) |}.

Definition azerty : option DetectedLayout := Some {| layout := js "azerty" |}.
Definition qwerty : option DetectedLayout := Some {| layout := js "qwerty" |}.
Definition unnamed : option DetectedLayout := Some {| layout := js "" |}.

Definition mac : Host := asciiHost (js "MacIntel").
Definition win : Host := asciiHost (js "Win32").

(** A mapper that knows the layout but throws on every lookup. *)
Definition throwingMapper (detected : option DetectedLayout)
  : KeyboardLayoutMapper jsstring :=
  {| getDetectedLayout := Normal detected;
     getKeyForCode := fun _ => Throw;
     mapKeys := fun _ => Throw |}.

(** Four records of the registry, by name. *)
Local Open Scope string_scope.

Definition replyAll : Shortcut :=
  mk ["a"] "replyAll" single "Reply all" "thread-display".

Definition undoLastAction : Shortcut :=
  withPreventDefault
    (mk ["mod"; "z"] "undoLastAction" single "Undo last action" "global").

Definition selectUnderCursor : Shortcut :=
  withIgnore
    (mk ["alt"; "shift"; "click"] "selectUnderCursor" combination
        "Select under cursor" "mail-list").

Definition sendEmail : Shortcut :=
  mk ["mod"; "Enter"] "sendEmail" combination "Send email" "compose".

Definition closeCompose : Shortcut :=
  mk ["escape"] "closeCompose" single "Close compose" "compose".

Local Close Scope string_scope.

End Sample.

(* ================================================================== *)
(** * Reading a call log *)
(* ================================================================== *)

(** The lower-cased key name is one of the [case] labels of the [switch]. *)
Definition isFixedKeyName (host : Host) (key : jsstring) : bool :=
  existsb (fun name => toLowerCase host key === name) fixedKeyNames.

(** The call is [keyboardLayoutMapper.getDetectedLayout()]. *)
Definition isDetectorCall {K} (c : Call K) : bool :=
  match c with
  | CallGetDetectedLayout => true
  | _ => false
  end.

(** The call is a per-key lookup: [getKeyCodeFromKey] or [getKeyForCode]. *)
Definition isLookupCall {K} (c : Call K) : bool :=
  match c with
  | CallGetKeyCodeFromKey _ | CallGetKeyForCode _ => true
  | _ => false
  end.

(** A code lookup that throws on every key name. *)
Definition throwingGetKeyCodeFromKey (key : jsstring) : completion jsstring :=
  Throw.

(* ================================================================== *)
(** * Strings: equality and substring tests *)
(* ================================================================== *)

Lemma eqb_eq (a b : jsstring) : (a === b) = true <-> a = b.
Proof.
  revert b; induction a as [|x a IH]; intros [|y b]; simpl;
    try (split; [discriminate | discriminate]); try tauto.
  rewrite andb_true_iff, N.eqb_eq, IH.
  split; [intros [-> ->]; reflexivity | intros H; inversion H; auto].
Qed.

Lemma eqb_neq (a b : jsstring) : (a === b) = false <-> a <> b.
Proof.
  rewrite <- eqb_eq. destruct (a === b); split; congruence.
Qed.

Lemma startsWith_spec (p s : jsstring) :
  startsWith s p = true <-> exists t, s = p ++ t.
Proof.
  revert s; induction p as [|y p IH]; intros [|x s]; simpl.
  - split; [intros _; exists []; reflexivity | reflexivity].
  - split; [intros _; exists (x :: s); reflexivity | reflexivity].
  - split; [discriminate | intros [t H]; discriminate].
  - rewrite andb_true_iff, N.eqb_eq, IH. split.
    + intros [-> [t ->]]. exists t. reflexivity.
    + intros [t H]. inversion H; subst. split; [reflexivity | eauto].
Qed.

(** [includes] is the substring test: [p] sits somewhere inside [s]. *)
Lemma includes_spec (p s : jsstring) :
  includes s p = true <-> exists before after, s = before ++ p ++ after.
Proof.
  induction s as [|x s IH].
  - cbn [includes]. rewrite orb_false_r, startsWith_spec. split.
    + intros [t H]. exists [], t. exact H.
    + intros [[|b before] [after H]]; [eauto | discriminate].
  - cbn [includes]. rewrite orb_true_iff, startsWith_spec, IH. split.
    + intros [[t H] | [before [after H]]].
      * exists [], t. exact H.
      * exists (x :: before), after. rewrite H. reflexivity.
    + intros [[|b before] [after H]].
      * left. exists after. exact H.
      * right. inversion H; subst. eauto.
Qed.

(* ================================================================== *)
(** * Computations: outcome and call log of [bind] and [mapM] *)
(* ================================================================== *)

Section EffLemmas.

Variable K : Type.

Lemma outcome_bind A B (m : Eff K A) (f : A -> Eff K B) :
  outcome (bind m f)
  = match outcome m with
    | Normal a => outcome (f a)
    | Throw => Throw
    end.
Proof.
  destruct m as [log [a|]]; simpl; [destruct (f a) |]; reflexivity.
Qed.

Lemma bind_ret_l A B (a : A) (f : A -> Eff K B) : bind (ret a) f = f a.
Proof. unfold bind, ret. destruct (f a); reflexivity. Qed.

(** [mapM] returns exactly when every callback returns, and then the
    results line up with the inputs position by position. *)
Lemma mapM_Normal A B (f : A -> Eff K B) (l : list A) (vs : list B) :
  outcome (mapM f l) = Normal vs
  <-> Forall2 (fun a b => outcome (f a) = Normal b) l vs.
Proof.
  revert vs; induction l as [|a l IH]; intros vs; simpl.
  - split.
    + intros H; inversion H; constructor.
    + intros H; inversion H; reflexivity.
  - rewrite outcome_bind. destruct (outcome (f a)) as [b|] eqn:Ha.
    + rewrite outcome_bind.
      destruct (outcome (mapM f l)) as [bs|] eqn:Hl; simpl.
      * split.
        -- intros H; inversion H; subst. constructor; [exact Ha|].
           apply IH. reflexivity.
        -- intros H; inversion H as [|? b' ? bs' Hb Hbs]; subst.
           apply IH in Hbs. congruence.
      * split; [discriminate|].
        intros H; inversion H as [|? b' ? bs' Hb Hbs]; subst.
        apply IH in Hbs. discriminate.
    + split; [discriminate|].
      intros H; inversion H; subst. congruence.
Qed.

Lemma mapM_total A B (f : A -> Eff K B) (l : list A) :
  (forall a, In a l -> exists b, outcome (f a) = Normal b) ->
  exists vs, outcome (mapM f l) = Normal vs.
Proof.
  induction l as [|a l IH]; intros H.
  - exists []. reflexivity.
  - destruct (H a (or_introl eq_refl)) as [b Hb].
    destruct IH as [bs Hbs]; [intros x Hx; apply H; right; exact Hx|].
    exists (b :: bs). apply mapM_Normal. constructor; [exact Hb|].
    apply mapM_Normal. exact Hbs.
Qed.

(** A [mapM] whose callbacks make no call makes no call. *)
Lemma mapM_silent A B (f : A -> Eff K B) (l : list A) :
  (forall a, In a l -> exists b, f a = ret b) ->
  exists vs, mapM f l = ret vs.
Proof.
  induction l as [|a l IH]; intros H.
  - exists []. reflexivity.
  - destruct (H a (or_introl eq_refl)) as [b Hb].
    destruct IH as [bs Hbs]; [intros x Hx; apply H; right; exact Hx|].
    exists (b :: bs). simpl. rewrite Hb, bind_ret_l, Hbs, bind_ret_l.
    reflexivity.
Qed.

End EffLemmas.

Lemma Forall2_nth_error_l A B (R : A -> B -> Prop) l l' i a :
  Forall2 R l l' -> nth_error l i = Some a ->
  exists b, nth_error l' i = Some b /\ R a b.
Proof.
  intros H; revert i; induction H as [|x y l l' Hxy H IH]; intros i Hi.
  - destruct i; discriminate.
  - destruct i as [|i]; simpl in *.
    + inversion Hi; subst. eauto.
    + apply IH. exact Hi.
Qed.

Lemma Forall2_length_eq A B (R : A -> B -> Prop) l l' :
  Forall2 R l l' -> length l' = length l.
Proof. induction 1; simpl; congruence. Qed.

(* ================================================================== *)
(** * The per-key callback *)
(* ================================================================== *)

Section DisplayKey.

Variable K : Type.
Variable host : Host.
Variable mapper : KeyboardLayoutMapper K.
Variable getKeyCodeFromKey : jsstring -> completion K.

(** Rewrites the test of one [case] label to [false] when the lower-cased
    key is none of the fixed names. *)
Ltac skip_case H name :=
  let E := fresh "E" in
  assert (E : (toLowerCase host _ === js name) = false)
    by (apply eqb_neq; intros E; apply H; rewrite E;
        unfold fixedKeyNames; simpl; tauto);
  rewrite E; clear E.

(** A key outside the fixed names reaches the [default:] case. *)
Lemma displayKey_default d key :
  ~ In (toLowerCase host key) fixedKeyNames ->
  displayKey host mapper getKeyCodeFromKey d key
  = if layoutIsRemapped d then
      keyCode <- call_getKeyCodeFromKey getKeyCodeFromKey key ;;
      mappedKey <- call_getKeyForCode mapper keyCode ;;
      ret (if Nat.eqb (length mappedKey) 1 then toUpperCase host mappedKey
           else mappedKey)
    else
      ret (if Nat.eqb (length key) 1 then toUpperCase host key else key).
Proof.
  intros H. unfold displayKey.
  skip_case H "mod"%string. skip_case H "meta"%string. skip_case H "ctrl"%string.
  skip_case H "control"%string. skip_case H "alt"%string. skip_case H "shift"%string.
  skip_case H "escape"%string. skip_case H "backspace"%string. skip_case H "enter"%string.
  skip_case H "space"%string. reflexivity.
Qed.

(** The guard of the layout-aware branch, spelled out. *)
Lemma layoutIsRemapped_true_iff d :
  layoutIsRemapped d = true
  <-> exists l, d = Some l /\ layout l <> [] /\ layout l <> js "qwerty".
Proof.
  destruct d as [l|]; simpl.
  - rewrite andb_true_iff, !negb_true_iff, eqb_neq, Nat.eqb_neq. split.
    + intros [Hlen Hq]. exists l. repeat split; [|exact Hq].
      intros E. rewrite E in Hlen. apply Hlen. reflexivity.
    + intros (l' & E & Hne & Hq). inversion E; subst l'. split; [|exact Hq].
      destruct (layout l); [congruence | discriminate].
  - split; [discriminate | intros (l & E & _); discriminate].
Qed.

(** A fixed name is settled by the [switch] alone: no call, no throw,
    and the same label whatever layout was detected. *)
Lemma displayKey_fixed_silent key :
  In (toLowerCase host key) fixedKeyNames ->
  exists label, forall d,
      displayKey host mapper getKeyCodeFromKey d key = ret label.
Proof.
  unfold fixedKeyNames. simpl. intros H.
  repeat (destruct H as [H | H]); [.. | contradiction];
    unfold displayKey; rewrite <- H; eexists; intros d; reflexivity.
Qed.

(** Under a layout that is not remapped the callback makes no call. *)
Lemma displayKey_not_remapped_silent d key :
  layoutIsRemapped d = false ->
  exists label, displayKey host mapper getKeyCodeFromKey d key = ret label.
Proof.
  intros Hd. unfold displayKey. rewrite Hd.
  repeat match goal with
         | |- context [if ?b then ret ?x else _] =>
             destruct b; [exists x; reflexivity|]
         end.
  eexists; reflexivity.
Qed.

(** With total services the callback always returns. *)
Lemma displayKey_total d key :
  services_total mapper getKeyCodeFromKey ->
  exists label,
    outcome (displayKey host mapper getKeyCodeFromKey d key) = Normal label.
Proof.
  intros (_ & Hcode & Hlabel & _).
  destruct (layoutIsRemapped d) eqn:Hd.
  - unfold displayKey. rewrite Hd.
    repeat match goal with
           | |- context [if ?b then ret ?x else _] =>
               destruct b; [exists x; reflexivity|]
           end.
    destruct (Hcode key) as [code Hc]. destruct (Hlabel code) as [m Hm].
    eexists. rewrite outcome_bind. unfold call_getKeyCodeFromKey at 1.
    simpl outcome at 1. rewrite Hc.
    rewrite outcome_bind. unfold call_getKeyForCode at 1.
    simpl outcome at 1. rewrite Hm. reflexivity.
  - destruct (@displayKey_not_remapped_silent d key Hd) as [label ->].
    exists label. reflexivity.
Qed.

(** [getDisplayKeysForShortcut] returns exactly when the detector and
    every callback return; labels and keys then line up by position. *)
Lemma getDisplayKeys_Normal shortcut ds :
  outcome (getDisplayKeysForShortcut host mapper getKeyCodeFromKey shortcut)
  = Normal ds
  <-> exists d,
      getDetectedLayout mapper = Normal d
      /\ Forall2 (fun key label =>
                    outcome (displayKey host mapper getKeyCodeFromKey d key)
                    = Normal label)
                 (keys shortcut) ds.
Proof.
  unfold getDisplayKeysForShortcut. rewrite outcome_bind.
  unfold call_getDetectedLayout. simpl outcome at 1.
  destruct (getDetectedLayout mapper) as [d|].
  - rewrite mapM_Normal. split.
    + intros H. exists d. split; [reflexivity | exact H].
    + intros [d' [E H]]. inversion E; subst. exact H.
  - split; [discriminate | intros [d' [E _]]; discriminate].
Qed.

Lemma getDisplayKeys_total shortcut :
  services_total mapper getKeyCodeFromKey ->
  exists ds,
    outcome (getDisplayKeysForShortcut host mapper getKeyCodeFromKey shortcut)
    = Normal ds.
Proof.
  intros Htot. pose proof Htot as ([d Hd] & _).
  destruct (mapM_total (displayKey host mapper getKeyCodeFromKey d)
                       (keys shortcut)) as [ds Hds].
  - intros key _. apply displayKey_total. exact Htot.
  - exists ds. apply getDisplayKeys_Normal. exists d.
    split; [exact Hd | apply mapM_Normal; exact Hds].
Qed.

(** The label at the position of a key is the callback's result there. *)
Lemma getDisplayKeys_at shortcut d i key :
  services_total mapper getKeyCodeFromKey ->
  getDetectedLayout mapper = Normal d ->
  nth_error (keys shortcut) i = Some key ->
  exists ds label,
    outcome (getDisplayKeysForShortcut host mapper getKeyCodeFromKey shortcut)
    = Normal ds
    /\ nth_error ds i = Some label
    /\ outcome (displayKey host mapper getKeyCodeFromKey d key) = Normal label.
Proof.
  intros Htot Hd Hi.
  destruct (getDisplayKeys_total shortcut Htot) as [ds Hds].
  pose proof Hds as Hds'.
  apply getDisplayKeys_Normal in Hds' as [d' [Hd' HF]].
  assert (d' = d) by congruence; subst d'.
  destruct (@Forall2_nth_error_l _ _ _ _ _ i _ HF Hi) as [label [Hl Hk]].
  exists ds, label. auto.
Qed.

End DisplayKey.

(* ================================================================== *)
(** * Properties of [getDisplayKeysForShortcut] *)
(* ================================================================== *)

Section DisplayKeysClaims.

Variable K : Type.
Variable host : Host.
Variable mapper : KeyboardLayoutMapper K.
Variable getKeyCodeFromKey : jsstring -> completion K.

(** C1.  A key whose lower-cased name is one of the ten fixed names gets
    its fixed label at its own position, whatever the mapper reports as
    detected layout: the callback returns that label for every layout and
    calls no service.  [mod] and [alt] follow the platform string
    ([includes] is the substring test, see [includes_spec]); the other
    labels are constants. *)
Theorem fixed_override_labels (shortcut : Shortcut) (i : nat) (key : jsstring) :
  services_total mapper getKeyCodeFromKey ->
  nth_error (keys shortcut) i = Some key ->
  In (toLowerCase host key) fixedKeyNames ->
  exists ds label,
    outcome (getDisplayKeysForShortcut host mapper getKeyCodeFromKey shortcut)
    = Normal ds
    /\ nth_error ds i = Some label
    /\ (forall d, displayKey host mapper getKeyCodeFromKey d key = ret label)
    /\ (toLowerCase host key = js "mod" ->
        label = if includes (platform host) (js "Mac")
                then glyph_command else js "Ctrl")
    /\ (toLowerCase host key = js "meta" -> label = glyph_command)
    /\ (toLowerCase host key = js "ctrl"
        \/ toLowerCase host key = js "control" -> label = js "Ctrl")
    /\ (toLowerCase host key = js "alt" ->
        label = if includes (platform host) (js "Mac")
                then glyph_option else js "Alt")
    /\ (toLowerCase host key = js "shift" -> label = glyph_shift)
    /\ (toLowerCase host key = js "escape" -> label = js "Esc")
    /\ (toLowerCase host key = js "backspace" -> label = glyph_backspace)
    /\ (toLowerCase host key = js "enter" -> label = glyph_enter)
    /\ (toLowerCase host key = js "space" -> label = js "Space").
Proof.
  intros Htot Hi Hin. pose proof Htot as ([d Hd] & _).
  destruct (@getDisplayKeys_at K host mapper getKeyCodeFromKey shortcut d i key Htot Hd Hi)
    as (ds & label & Hds & Hl & Hk).
  destruct (@displayKey_fixed_silent K host mapper getKeyCodeFromKey key Hin)
    as [label' Hall].
  assert (label' = label) as ->.
  { rewrite (Hall d) in Hk. inversion Hk. reflexivity. }
  exists ds, label. split; [exact Hds|]. split; [exact Hl|].
  split; [exact Hall|].
  specialize (Hall None). unfold displayKey in Hall.
  repeat split;
    try (intros [E | E]); try (intros E);
    rewrite E in Hall; cbn in Hall; unfold ret in Hall;
    inversion Hall; reflexivity.
Qed.

(** C2, as amended.  A key outside the fixed names: when the layout is
    not remapped, or when it is remapped and the mapper sends the key's
    code back to the key name itself, a one-character name is shown
    upper-cased and a longer name unchanged. *)
Theorem nonfixed_key_policy (d : option DetectedLayout) (key : jsstring) :
  ~ In (toLowerCase host key) fixedKeyNames ->
  (layoutIsRemapped d = true ->
   exists code, getKeyCodeFromKey key = Normal code
                /\ getKeyForCode mapper code = Normal key) ->
  exists label,
    outcome (displayKey host mapper getKeyCodeFromKey d key) = Normal label
    /\ (length key = 1 -> label = toUpperCase host key)
    /\ (1 < length key -> label = key).
Proof.
  intros Hnot Hback.
  exists (if Nat.eqb (length key) 1 then toUpperCase host key else key).
  split.
  - rewrite (@displayKey_default K host mapper getKeyCodeFromKey d key Hnot).
    destruct (layoutIsRemapped d).
    + destruct (Hback eq_refl) as (code & Hc & Hm).
      rewrite outcome_bind. unfold call_getKeyCodeFromKey at 1.
      simpl outcome at 1. rewrite Hc.
      rewrite outcome_bind. unfold call_getKeyForCode at 1.
      simpl outcome at 1. rewrite Hm. reflexivity.
    + reflexivity.
  - split.
    + intros ->. reflexivity.
    + intros Hlen. destruct (Nat.eqb_spec (length key) 1); [lia|reflexivity].
Qed.

(** C3, as amended.  A key outside the fixed names, under a detected
    layout whose identifier is neither empty nor ["qwerty"]: the callback
    calls [getKeyCodeFromKey] on the key name, then [getKeyForCode] on the
    code it got, and nothing else; the label at the key's position is the
    mapped label, upper-cased when it is one code unit long. *)
Theorem remapped_layout_resolution
        (shortcut : Shortcut) (i : nat) (key : jsstring) (l : DetectedLayout) :
  services_total mapper getKeyCodeFromKey ->
  getDetectedLayout mapper = Normal (Some l) ->
  layout l <> [] ->
  layout l <> js "qwerty" ->
  nth_error (keys shortcut) i = Some key ->
  ~ In (toLowerCase host key) fixedKeyNames ->
  exists code mapped ds,
    getKeyCodeFromKey key = Normal code
    /\ getKeyForCode mapper code = Normal mapped
    /\ displayKey host mapper getKeyCodeFromKey (Some l) key
       = ([CallGetKeyCodeFromKey key; CallGetKeyForCode code],
          Normal (if Nat.eqb (length mapped) 1 then toUpperCase host mapped
                  else mapped))
    /\ outcome (getDisplayKeysForShortcut host mapper getKeyCodeFromKey shortcut)
       = Normal ds
    /\ nth_error ds i
       = Some (if Nat.eqb (length mapped) 1 then toUpperCase host mapped
               else mapped).
Proof.
  intros Htot Hd Hne Hnq Hi Hnot.
  pose proof Htot as (_ & Hcode & Hlabel & _).
  destruct (Hcode key) as [code Hc]. destruct (Hlabel code) as [mapped Hm].
  destruct (@getDisplayKeys_at K host mapper getKeyCodeFromKey shortcut (Some l) i key Htot Hd Hi)
    as (ds & label & Hds & Hl & Hk).
  assert (Hrun : displayKey host mapper getKeyCodeFromKey (Some l) key
                 = ([CallGetKeyCodeFromKey key; CallGetKeyForCode code],
                    Normal (if Nat.eqb (length mapped) 1
                            then toUpperCase host mapped else mapped))).
  { rewrite (@displayKey_default K host mapper getKeyCodeFromKey (Some l) key Hnot).
    assert (layoutIsRemapped (Some l) = true) as ->.
    { simpl. apply andb_true_iff. split; apply negb_true_iff.
      - destruct (layout l); [congruence | reflexivity].
      - apply eqb_neq. exact Hnq. }
    unfold call_getKeyCodeFromKey, call_getKeyForCode, bind, ret.
    rewrite Hc, Hm. reflexivity. }
  exists code, mapped, ds. repeat split; try assumption.
  rewrite Hrun in Hk. simpl in Hk. congruence.
Qed.

(** C4.  A key outside the fixed names, when no layout is detected or the
    detected one is ["qwerty"]: the callback returns the key name,
    upper-cased when it is one code unit long, with an empty call log (no
    code lookup, no layout mapping), and that is the label at the key's
    position; the whole call consults the detector once and nothing else.
    No assumption on the code-lookup and mapping services is needed. *)
Theorem default_layout_resolution
        (shortcut : Shortcut) (i : nat) (key : jsstring)
        (d : option DetectedLayout) :
  getDetectedLayout mapper = Normal d ->
  d = None \/ (exists l, d = Some l /\ layout l = js "qwerty") ->
  nth_error (keys shortcut) i = Some key ->
  ~ In (toLowerCase host key) fixedKeyNames ->
  displayKey host mapper getKeyCodeFromKey d key
  = ([], Normal (if Nat.eqb (length key) 1 then toUpperCase host key else key))
  /\ exists ds,
      getDisplayKeysForShortcut host mapper getKeyCodeFromKey shortcut
      = ([CallGetDetectedLayout], Normal ds)
      /\ nth_error ds i
         = Some (if Nat.eqb (length key) 1 then toUpperCase host key else key).
Proof.
  intros Hd Hdef Hi Hnot.
  assert (Hoff : layoutIsRemapped d = false).
  { destruct Hdef as [-> | (l & -> & Hq)]; [reflexivity|].
    simpl. rewrite Hq. reflexivity. }
  assert (Hrun : displayKey host mapper getKeyCodeFromKey d key
                 = ret (if Nat.eqb (length key) 1
                        then toUpperCase host key else key)).
  { rewrite (@displayKey_default K host mapper getKeyCodeFromKey d key Hnot), Hoff.
    reflexivity. }
  split; [exact Hrun|].
  destruct (mapM_silent (displayKey host mapper getKeyCodeFromKey d)
                        (keys shortcut)) as [ds Hds].
  { intros k _. apply displayKey_not_remapped_silent. exact Hoff. }
  exists ds. split.
  - unfold getDisplayKeysForShortcut, call_getDetectedLayout, bind.
    rewrite Hd, Hds. reflexivity.
  - assert (HF : Forall2 (fun k lbl =>
              outcome (displayKey host mapper getKeyCodeFromKey d k)
              = Normal lbl) (keys shortcut) ds).
    { apply mapM_Normal. rewrite Hds. reflexivity. }
    destruct (@Forall2_nth_error_l _ _ _ _ _ i _ HF Hi) as [lbl [Hl Hk]].
    rewrite Hrun in Hk. inversion Hk; subst. exact Hl.
Qed.

(** C6.  The labels [getDisplayKeysForShortcut] returns are as many as
    the keys of the record, and the label at each position is the
    callback's result on the key at that position. *)
Theorem display_keys_positional (shortcut : Shortcut) :
  services_total mapper getKeyCodeFromKey ->
  exists d ds,
    getDetectedLayout mapper = Normal d
    /\ outcome (getDisplayKeysForShortcut host mapper getKeyCodeFromKey shortcut)
       = Normal ds
    /\ length ds = length (keys shortcut)
    /\ Forall2 (fun key label =>
                  outcome (displayKey host mapper getKeyCodeFromKey d key)
                  = Normal label)
               (keys shortcut) ds.
Proof.
  intros Htot.
  destruct (@getDisplayKeys_total K host mapper getKeyCodeFromKey shortcut Htot) as [ds Hds].
  pose proof Hds as Hds'.
  apply getDisplayKeys_Normal in Hds' as [d [Hd HF]].
  exists d, ds. repeat split; try assumption.
  eapply Forall2_length_eq; eassumption.
Qed.

End DisplayKeysClaims.

(* ================================================================== *)
(** * Properties of [enhanceShortcutsWithMapping] *)
(* ================================================================== *)

Section EnhanceClaims.

Variable K : Type.
Variable host : Host.
Variable mapper : KeyboardLayoutMapper K.
Variable getKeyCodeFromKey : jsstring -> completion K.

(** What one enhanced record is made of, when the callback returns. *)
Lemma enhanceShortcut_Normal shortcut e :
  outcome (enhanceShortcut host mapper getKeyCodeFromKey shortcut) = Normal e ->
  exists ds codes ms,
    outcome (getDisplayKeysForShortcut host mapper getKeyCodeFromKey shortcut)
    = Normal ds
    /\ Forall2 (fun key code => getKeyCodeFromKey key = Normal code)
               (keys shortcut) codes
    /\ mapKeys mapper codes = Normal ms
    /\ e = set_mappedKeys (set_displayKeys (spread shortcut) ds) ms.
Proof.
  unfold enhanceShortcut. rewrite outcome_bind.
  destruct (outcome (getDisplayKeysForShortcut host mapper getKeyCodeFromKey
                                               shortcut)) as [ds|];
    [|discriminate].
  rewrite outcome_bind.
  destruct (outcome (mapM (call_getKeyCodeFromKey getKeyCodeFromKey)
                          (keys shortcut))) as [codes|] eqn:Hcodes;
    [|discriminate].
  rewrite outcome_bind. unfold call_mapKeys at 1. simpl outcome at 1.
  destruct (mapKeys mapper codes) as [ms|] eqn:Hms; [|discriminate].
  intros H. inversion H; subst.
  exists ds, codes, ms. repeat split; try assumption.
  apply mapM_Normal in Hcodes. exact Hcodes.
Qed.

Lemma enhanceShortcut_total shortcut :
  services_total mapper getKeyCodeFromKey ->
  exists e,
    outcome (enhanceShortcut host mapper getKeyCodeFromKey shortcut) = Normal e.
Proof.
  intros Htot. pose proof Htot as (_ & Hcode & _ & Hmap).
  destruct (@getDisplayKeys_total K host mapper getKeyCodeFromKey shortcut Htot)
    as [ds Hds].
  destruct (mapM_total (call_getKeyCodeFromKey getKeyCodeFromKey)
                       (keys shortcut)) as [codes Hcodes].
  { intros key _. apply Hcode. }
  destruct (Hmap codes) as [ms Hms].
  eexists. unfold enhanceShortcut.
  rewrite outcome_bind, Hds, outcome_bind, Hcodes, outcome_bind.
  unfold call_mapKeys at 1. simpl outcome at 1. rewrite Hms. reflexivity.
Qed.

Lemma enhance_total shortcuts :
  services_total mapper getKeyCodeFromKey ->
  exists es,
    outcome (enhanceShortcutsWithMapping host mapper getKeyCodeFromKey shortcuts)
    = Normal es.
Proof.
  intros Htot. apply mapM_total. intros s _.
  apply enhanceShortcut_total. exact Htot.
Qed.

(** C5.  [enhanceShortcutsWithMapping] returns as many records as it was
    given, in the same order: the record at position [i] extends the
    input at position [i]; its [displayKeys] is what
    [getDisplayKeysForShortcut] returns for that input, and its
    [mappedKeys] is [mapKeys] of the codes [getKeyCodeFromKey] gives for
    the input's keys, one code per key in key order. *)
Theorem enhance_pointwise (shortcuts : list Shortcut) :
  services_total mapper getKeyCodeFromKey ->
  exists es,
    outcome (enhanceShortcutsWithMapping host mapper getKeyCodeFromKey shortcuts)
    = Normal es
    /\ length es = length shortcuts
    /\ forall i shortcut,
        nth_error shortcuts i = Some shortcut ->
        exists e ds codes ms,
          nth_error es i = Some e
          /\ toShortcut e = shortcut
          /\ outcome (getDisplayKeysForShortcut host mapper getKeyCodeFromKey
                                                shortcut) = Normal ds
          /\ displayKeys e = Some ds
          /\ Forall2 (fun key code => getKeyCodeFromKey key = Normal code)
                     (keys shortcut) codes
          /\ mapKeys mapper codes = Normal ms
          /\ mappedKeys e = Some ms.
Proof.
  intros Htot. destruct (enhance_total shortcuts Htot) as [es Hes].
  exists es. split; [exact Hes|].
  apply mapM_Normal in Hes. split.
  - eapply Forall2_length_eq; eassumption.
  - intros i shortcut Hi.
    destruct (@Forall2_nth_error_l _ _ _ _ _ i _ Hes Hi) as [e [He Hrun]].
    apply enhanceShortcut_Normal in Hrun
      as (ds & codes & ms & Hds & Hcodes & Hms & ->).
    exists (set_mappedKeys (set_displayKeys (spread shortcut) ds) ms),
      ds, codes, ms.
    repeat split; try assumption. destruct shortcut; reflexivity.
Qed.

(** C8.  Every record [enhanceShortcutsWithMapping] returns carries the
    seven fields of the input record at the same position unchanged, and
    has both [displayKeys] and [mappedKeys] set. *)
Theorem enhance_preserves_fields (shortcuts : list Shortcut) :
  services_total mapper getKeyCodeFromKey ->
  exists es,
    outcome (enhanceShortcutsWithMapping host mapper getKeyCodeFromKey shortcuts)
    = Normal es
    /\ Forall2 (fun shortcut e =>
                  e_keys e = keys shortcut
                  /\ e_action e = action shortcut
                  /\ e_type e = type shortcut
                  /\ e_description e = description shortcut
                  /\ e_scope e = scope shortcut
                  /\ e_preventDefault e = preventDefault shortcut
                  /\ e_ignore e = ignore shortcut
                  /\ displayKeys e <> None
                  /\ mappedKeys e <> None)
               shortcuts es.
Proof.
  intros Htot. destruct (enhance_total shortcuts Htot) as [es Hes].
  exists es. split; [exact Hes|].
  apply mapM_Normal in Hes.
  induction Hes as [|shortcut e l l' Hrun _ IH]; constructor; [|exact IH].
  apply enhanceShortcut_Normal in Hrun as (ds & codes & ms & _ & _ & _ & ->).
  simpl. repeat split; discriminate.
Qed.

(** C9.  With total services neither function throws, on any record or
    list of records.  A key outside the fixed names is then shown through
    the mapper under a remapped layout; under an absent, unnamed or
    ["qwerty"] layout it is shown as itself (upper-cased when one code
    unit long) and this branch returns even if the code lookup and the
    mapper would throw. *)
Theorem no_throw_with_total_services :
  services_total mapper getKeyCodeFromKey ->
  (forall shortcut, exists ds,
      outcome (getDisplayKeysForShortcut host mapper getKeyCodeFromKey shortcut)
      = Normal ds)
  /\ (forall shortcuts, exists es,
         outcome (enhanceShortcutsWithMapping host mapper getKeyCodeFromKey
                                              shortcuts) = Normal es)
  /\ (forall d key, exists label,
         outcome (displayKey host mapper getKeyCodeFromKey d key) = Normal label)
  /\ (forall (mapper' : KeyboardLayoutMapper K) getKeyCodeFromKey' d key,
         ~ In (toLowerCase host key) fixedKeyNames ->
         layoutIsRemapped d = false ->
         displayKey host mapper' getKeyCodeFromKey' d key
         = ret (if Nat.eqb (length key) 1 then toUpperCase host key else key)).
Proof.
  intros Htot. repeat split.
  - intros shortcut. apply getDisplayKeys_total. exact Htot.
  - intros shortcuts. apply enhance_total. exact Htot.
  - intros d key. apply displayKey_total. exact Htot.
  - intros mapper' g' d key Hnot Hoff.
    rewrite (@displayKey_default K host mapper' g' d key Hnot), Hoff.
    reflexivity.
Qed.

End EnhanceClaims.

(* ================================================================== *)
(** * Properties of the registry *)
(* ================================================================== *)

(** Where each group starts in the flattened registry. *)
Lemma nth_error_app_offset A (before group after : list A) i :
  i < length group ->
  nth_error (before ++ group ++ after) (length before + i) = nth_error group i.
Proof.
  intros Hi. rewrite nth_error_app2 by lia.
  replace (length before + i - length before) with i by lia.
  apply nth_error_app1. exact Hi.
Qed.

(** C7.  [keyboardShortcuts] is the five groups one after the other, in
      the order navigation, thread-display, global, mail-list, compose; its
      length is the sum of theirs; each group sits in one block, in its own
      order, starting where the groups before it end; and every record of a
      group carries that group's scope. *)
Theorem registry_is_concatenation :
  keyboardShortcuts
  = navigation ++ threadDisplayShortcuts ++ globalShortcuts
    ++ mailListShortcuts ++ composeShortcuts
  /\ length keyboardShortcuts
     = length navigation + length threadDisplayShortcuts
       + length globalShortcuts + length mailListShortcuts
       + length composeShortcuts
  /\ (forall i, i < length navigation ->
        nth_error keyboardShortcuts i = nth_error navigation i)
  /\ (forall i, i < length threadDisplayShortcuts ->
        nth_error keyboardShortcuts (length navigation + i)
        = nth_error threadDisplayShortcuts i)
  /\ (forall i, i < length globalShortcuts ->
        nth_error keyboardShortcuts
                  (length navigation + length threadDisplayShortcuts + i)
        = nth_error globalShortcuts i)
  /\ (forall i, i < length mailListShortcuts ->
        nth_error keyboardShortcuts
                  (length navigation + length threadDisplayShortcuts
                   + length globalShortcuts + i)
        = nth_error mailListShortcuts i)
  /\ (forall i, i < length composeShortcuts ->
        nth_error keyboardShortcuts
                  (length navigation + length threadDisplayShortcuts
                   + length globalShortcuts + length mailListShortcuts + i)
        = nth_error composeShortcuts i)
  /\ Forall (fun s => scope s = js "navigation") navigation
  /\ Forall (fun s => scope s = js "thread-display") threadDisplayShortcuts
  /\ Forall (fun s => scope s = js "global") globalShortcuts
  /\ Forall (fun s => scope s = js "mail-list") mailListShortcuts
  /\ Forall (fun s => scope s = js "compose") composeShortcuts.
Proof.
  split; [reflexivity|]. split; [reflexivity|].
  unfold keyboardShortcuts.
  split; [intros i Hi; apply nth_error_app1; exact Hi|].
  split; [intros i Hi; apply (nth_error_app_offset navigation); exact Hi|].
  split.
  { intros i Hi. rewrite (app_assoc navigation), <- length_app.
    apply nth_error_app_offset. exact Hi. }
  split.
  { intros i Hi. rewrite (app_assoc navigation), (app_assoc (navigation ++ _)).
    rewrite <- !length_app. apply nth_error_app_offset. exact Hi. }
  split.
  { intros i Hi.
    rewrite (app_assoc navigation), (app_assoc (navigation ++ _)),
      (app_assoc ((navigation ++ _) ++ _)).
    rewrite <- !length_app, nth_error_app2 by lia.
    f_equal. lia. }
  repeat split; repeat constructor.
Qed.

(** C10.  Every record of [keyboardShortcuts] has at least one key. *)
Theorem registry_keys_nonempty :
  Forall (fun s => keys s <> []) keyboardShortcuts.
Proof.
  unfold keyboardShortcuts, navigation, threadDisplayShortcuts,
    globalShortcuts, mailListShortcuts, composeShortcuts.
  simpl. repeat constructor; discriminate.
Qed.

(* ================================================================== *)
(** * Runs on concrete inputs *)
(* ================================================================== *)

Lemma sample_services_total d :
  services_total (Sample.mapper d) Sample.getKeyCodeFromKey.
Proof.
  unfold services_total. simpl.
  split; [eexists; reflexivity|].
  split; [intros key; eexists; reflexivity|].
  split; [intros code; eexists; reflexivity|].
  intros codes; eexists; reflexivity.
Defined.

Lemma sample_records_in_registry :
  In Sample.replyAll keyboardShortcuts
  /\ In Sample.undoLastAction keyboardShortcuts
  /\ In Sample.selectUnderCursor keyboardShortcuts
  /\ In Sample.sendEmail keyboardShortcuts
  /\ In Sample.closeCompose keyboardShortcuts.
Proof.
  unfold keyboardShortcuts. rewrite !in_app_iff.
  repeat split.
  - right; left. simpl. auto.
  - do 2 right; left. simpl. auto.
  - do 3 right; left. simpl. auto 20.
  - do 4 right. simpl. auto.
  - do 4 right. simpl. auto.
Qed.

(** [includes] on the two platform strings of the samples. *)
Example mac_platform_includes_Mac :
  includes (platform Sample.mac) (js "Mac") = true
  /\ includes (platform Sample.win) (js "Mac") = false.
Proof. split; reflexivity. Qed.

(** [{keys: ["mod","z"]}], not a Mac, default layout: [["Ctrl"; "Z"]]. *)
Example undo_on_windows_qwerty :
  getDisplayKeysForShortcut Sample.win (Sample.mapper Sample.qwerty)
                            Sample.getKeyCodeFromKey Sample.undoLastAction
  = ([CallGetDetectedLayout], Normal [js "Ctrl"; js "Z"]).
Proof. reflexivity. Qed.

(** [{keys: ["escape"]}]: [["Esc"]] under each sample layout and platform. *)
Example escape_everywhere :
  forall host d,
    In host [Sample.mac; Sample.win] ->
    In d [None; Sample.qwerty; Sample.azerty; Sample.unnamed] ->
    outcome (getDisplayKeysForShortcut host (Sample.mapper d)
                                       Sample.getKeyCodeFromKey
                                       Sample.closeCompose)
    = Normal [js "Esc"].
Proof.
  intros host d Hh Hd. simpl in Hh, Hd.
  repeat (destruct Hh as [<- | Hh]); try contradiction;
    repeat (destruct Hd as [<- | Hd]); try contradiction; reflexivity.
Qed.

(** [{keys: ["alt","shift","click"]}], Mac, no layout detected. *)
Example select_under_cursor_on_mac :
  getDisplayKeysForShortcut Sample.mac (Sample.mapper None)
                            Sample.getKeyCodeFromKey Sample.selectUnderCursor
  = ([CallGetDetectedLayout], Normal [glyph_option; glyph_shift; js "click"]).
Proof. reflexivity. Qed.

(** ["a"] becomes ["A"], ["1"] stays ["1"], ["click"] stays ["click"]. *)
Example default_branch_labels :
  map (fun key => displayKey Sample.win (Sample.mapper Sample.qwerty)
                             Sample.getKeyCodeFromKey Sample.qwerty key)
      [js "a"; js "1"; js "click"]
  = [ret (js "A"); ret (js "1"); ret (js "click")].
Proof. reflexivity. Qed.

(** Letter case of the key name does not matter to the [switch]. *)
Example send_email_on_mac_azerty :
  getDisplayKeysForShortcut Sample.mac (Sample.mapper Sample.azerty)
                            Sample.getKeyCodeFromKey Sample.sendEmail
  = ([CallGetDetectedLayout], Normal [glyph_command; glyph_enter]).
Proof. reflexivity. Qed.

(** Under AZERTY the key named ["a"] is shown as ["Q"], after two calls. *)
Example reply_all_on_azerty :
  getDisplayKeysForShortcut Sample.win (Sample.mapper Sample.azerty)
                            Sample.getKeyCodeFromKey Sample.replyAll
  = ([CallGetDetectedLayout; CallGetKeyCodeFromKey (js "a");
      CallGetKeyForCode (js "KeyA")],
     Normal [js "Q"]).
Proof. reflexivity. Qed.

(** A mapper that throws makes the call throw under a remapped layout,
    and is never reached under the default one. *)
Example throwing_mapper_runs :
  outcome (getDisplayKeysForShortcut Sample.win
             (Sample.throwingMapper Sample.azerty)
             Sample.getKeyCodeFromKey Sample.replyAll) = Throw
  /\ outcome (getDisplayKeysForShortcut Sample.win
                (Sample.throwingMapper Sample.qwerty)
                Sample.getKeyCodeFromKey Sample.replyAll) = Normal [js "A"].
Proof. split; reflexivity. Qed.

(** One enhanced record, in full. *)
Example enhance_undo_on_azerty :
  enhanceShortcutsWithMapping Sample.win (Sample.mapper Sample.azerty)
                              Sample.getKeyCodeFromKey [Sample.undoLastAction]
  = ([CallGetDetectedLayout;
      CallGetKeyCodeFromKey (js "z"); CallGetKeyForCode (js "KeyZ");
      CallGetKeyCodeFromKey (js "mod"); CallGetKeyCodeFromKey (js "z");
      CallMapKeys [js "mod"; js "KeyZ"]],
     Normal [ {| e_keys := [js "mod"; js "z"];
                 e_action := js "undoLastAction";
                 e_type := single;
                 e_description := js "Undo last action";
                 e_scope := js "global";
                 e_preventDefault := Some true;
                 e_ignore := None;
                 mappedKeys := Some [js "mod"; js "w"];
                 displayKeys := Some [js "Ctrl"; js "W"] |} ]).
Proof. reflexivity. Qed.

(** The registry enhanced at load: 34 records in, 34 records out. *)
Example enhanced_registry_size :
  length keyboardShortcuts = 34
  /\ exists es,
      outcome (enhancedKeyboardShortcuts Sample.mac (Sample.mapper Sample.azerty)
                                         Sample.getKeyCodeFromKey) = Normal es
      /\ length es = 34.
Proof.
  split; [reflexivity|]. eexists. split; [vm_compute; reflexivity|reflexivity].
Qed.

(* ================================================================== *)
(** * Where the stated policy and the code part ways *)
(* ================================================================== *)

(** C2, as stated, fails under a remapped layout: the key named ["a"] is
    one code unit long and outside the fixed names, yet under AZERTY its
    label is ["Q"], the upper-cased mapped key, not ["A"]. *)
Lemma nonfixed_key_policy_fails_when_remapped :
  ~ In (toLowerCase Sample.win (js "a")) fixedKeyNames
  /\ length (js "a") = 1
  /\ layoutIsRemapped Sample.azerty = true
  /\ displayKey Sample.win (Sample.mapper Sample.azerty)
                Sample.getKeyCodeFromKey Sample.azerty (js "a")
     = ([CallGetKeyCodeFromKey (js "a"); CallGetKeyForCode (js "KeyA")],
        Normal (js "Q"))
  /\ toUpperCase Sample.win (js "a") = js "A"
  /\ js "Q" <> js "A".
Proof.
  split.
  { vm_compute. intuition discriminate. }
  repeat split; try reflexivity. discriminate.
Qed.

(** C3, as stated, fails for a detected layout whose identifier is the
    empty string: it is present and is not ["qwerty"], the mapper would
    show the key named ["a"] as ["q"], yet the guard of the [default:] case
    is falsy, no service is called and the label is ["A"]. *)
Lemma remapped_resolution_fails_for_unnamed_layout :
  Sample.unnamed = Some {| layout := [] |}
  /\ [] <> js "qwerty"
  /\ ~ In (toLowerCase Sample.win (js "a")) fixedKeyNames
  /\ Sample.getKeyCodeFromKey (js "a") = Normal (js "KeyA")
  /\ getKeyForCode (Sample.mapper Sample.unnamed) (js "KeyA") = Normal (js "q")
  /\ toUpperCase Sample.win (js "q") = js "Q"
  /\ displayKey Sample.win (Sample.mapper Sample.unnamed)
                Sample.getKeyCodeFromKey Sample.unnamed (js "a")
     = ([], Normal (js "A"))
  /\ getDisplayKeysForShortcut Sample.win (Sample.mapper Sample.unnamed)
                               Sample.getKeyCodeFromKey Sample.replyAll
     = ([CallGetDetectedLayout], Normal [js "A"])
  /\ js "A" <> js "Q".
Proof.
  split; [reflexivity|]. split; [discriminate|].
  split.
  { vm_compute. intuition discriminate. }
  repeat split; try reflexivity. discriminate.
Qed.

(* ================================================================== *)
(** * The theorems at work on the samples *)
(* ================================================================== *)

Lemma fixed_override_labels_witness :
  services_total (Sample.mapper Sample.azerty) Sample.getKeyCodeFromKey
  /\ nth_error (keys Sample.sendEmail) 1 = Some (js "Enter")
  /\ In (toLowerCase Sample.mac (js "Enter")) fixedKeyNames
  /\ exists ds,
      outcome (getDisplayKeysForShortcut Sample.mac (Sample.mapper Sample.azerty)
                                         Sample.getKeyCodeFromKey
                                         Sample.sendEmail) = Normal ds
      /\ nth_error ds 1 = Some glyph_enter.
Proof.
  assert (Ht := sample_services_total Sample.azerty).
  assert (Hn : nth_error (keys Sample.sendEmail) 1 = Some (js "Enter"))
    by reflexivity.
  assert (Hin : In (toLowerCase Sample.mac (js "Enter")) fixedKeyNames)
    by (do 8 right; left; reflexivity).
  split; [exact Ht|]. split; [exact Hn|]. split; [exact Hin|].
  destruct (@fixed_override_labels jsstring Sample.mac
              (Sample.mapper Sample.azerty) Sample.getKeyCodeFromKey
              Sample.sendEmail 1 (js "Enter") Ht Hn Hin)
    as (ds & label & Hds & Hl & _ & _ & _ & _ & _ & _ & _ & _ & Henter & _).
  exists ds. split; [exact Hds|].
  rewrite Hl. f_equal. apply Henter. reflexivity.
Defined.

Lemma nonfixed_key_policy_witness :
  ~ In (toLowerCase Sample.win (js "e")) fixedKeyNames
  /\ (layoutIsRemapped Sample.azerty = true ->
      exists code, Sample.getKeyCodeFromKey (js "e") = Normal code
                   /\ getKeyForCode (Sample.mapper Sample.azerty) code
                      = Normal (js "e"))
  /\ outcome (displayKey Sample.win (Sample.mapper Sample.azerty)
                         Sample.getKeyCodeFromKey Sample.azerty (js "e"))
     = Normal (toUpperCase Sample.win (js "e")).
Proof.
  assert (Hnot : ~ In (toLowerCase Sample.win (js "e")) fixedKeyNames).
  { vm_compute. intuition discriminate. }
  assert (Hback : layoutIsRemapped Sample.azerty = true ->
                  exists code, Sample.getKeyCodeFromKey (js "e") = Normal code
                               /\ getKeyForCode (Sample.mapper Sample.azerty) code
                                  = Normal (js "e")).
  { intros _. exists (js "KeyE"). split; reflexivity. }
  split; [exact Hnot|]. split; [exact Hback|].
  destruct (@nonfixed_key_policy jsstring Sample.win
              (Sample.mapper Sample.azerty) Sample.getKeyCodeFromKey
              Sample.azerty (js "e") Hnot Hback)
    as (label & Hrun & Hone & _).
  rewrite Hrun. f_equal. apply Hone. reflexivity.
Defined.

Lemma remapped_layout_resolution_witness :
  services_total (Sample.mapper Sample.azerty) Sample.getKeyCodeFromKey
  /\ getDetectedLayout (Sample.mapper Sample.azerty)
     = Normal (Some {| layout := js "azerty" |})
  /\ js "azerty" <> []
  /\ js "azerty" <> js "qwerty"
  /\ nth_error (keys Sample.replyAll) 0 = Some (js "a")
  /\ ~ In (toLowerCase Sample.win (js "a")) fixedKeyNames
  /\ exists ds,
      outcome (getDisplayKeysForShortcut Sample.win (Sample.mapper Sample.azerty)
                                         Sample.getKeyCodeFromKey
                                         Sample.replyAll) = Normal ds
      /\ nth_error ds 0 = Some (js "Q").
Proof.
  assert (Ht := sample_services_total Sample.azerty).
  assert (Hd : getDetectedLayout (Sample.mapper Sample.azerty)
               = Normal (Some {| layout := js "azerty" |})) by reflexivity.
  assert (Hne : layout {| layout := js "azerty" |} <> []) by discriminate.
  assert (Hnq : layout {| layout := js "azerty" |} <> js "qwerty")
    by discriminate.
  assert (Hn : nth_error (keys Sample.replyAll) 0 = Some (js "a"))
    by reflexivity.
  assert (Hnot : ~ In (toLowerCase Sample.win (js "a")) fixedKeyNames).
  { vm_compute. intuition discriminate. }
  split; [exact Ht|]. split; [exact Hd|]. split; [exact Hne|].
  split; [exact Hnq|]. split; [exact Hn|]. split; [exact Hnot|].
  destruct (@remapped_layout_resolution jsstring Sample.win
              (Sample.mapper Sample.azerty) Sample.getKeyCodeFromKey
              Sample.replyAll 0 (js "a") {| layout := js "azerty" |}
              Ht Hd Hne Hnq Hn Hnot)
    as (code & mapped & ds & Hc & Hm & _ & Hds & Hl).
  exists ds. split; [exact Hds|].
  rewrite Hl. inversion Hc; subst code. inversion Hm; subst mapped.
  reflexivity.
Defined.

Lemma default_layout_resolution_witness :
  getDetectedLayout (Sample.mapper Sample.qwerty) = Normal Sample.qwerty
  /\ (Sample.qwerty = None
      \/ exists l, Sample.qwerty = Some l /\ layout l = js "qwerty")
  /\ nth_error (keys Sample.undoLastAction) 1 = Some (js "z")
  /\ ~ In (toLowerCase Sample.win (js "z")) fixedKeyNames
  /\ displayKey Sample.win (Sample.mapper Sample.qwerty)
                Sample.getKeyCodeFromKey Sample.qwerty (js "z")
     = ([], Normal (js "Z")).
Proof.
  assert (Hd : getDetectedLayout (Sample.mapper Sample.qwerty)
               = Normal Sample.qwerty) by reflexivity.
  assert (Hq : Sample.qwerty = None
               \/ exists l, Sample.qwerty = Some l /\ layout l = js "qwerty").
  { right. exists {| layout := js "qwerty" |}. split; reflexivity. }
  assert (Hn : nth_error (keys Sample.undoLastAction) 1 = Some (js "z"))
    by reflexivity.
  assert (Hnot : ~ In (toLowerCase Sample.win (js "z")) fixedKeyNames).
  { vm_compute. intuition discriminate. }
  split; [exact Hd|]. split; [exact Hq|]. split; [exact Hn|].
  split; [exact Hnot|].
  destruct (@default_layout_resolution jsstring Sample.win
              (Sample.mapper Sample.qwerty) Sample.getKeyCodeFromKey
              Sample.undoLastAction 1 (js "z") Sample.qwerty Hd Hq Hn Hnot)
    as [Hrun _].
  rewrite Hrun. reflexivity.
Defined.

Lemma display_keys_positional_witness :
  services_total (Sample.mapper Sample.azerty) Sample.getKeyCodeFromKey
  /\ exists ds,
      outcome (getDisplayKeysForShortcut Sample.mac (Sample.mapper Sample.azerty)
                                         Sample.getKeyCodeFromKey
                                         Sample.selectUnderCursor) = Normal ds
      /\ length ds = 3.
Proof.
  assert (Ht := sample_services_total Sample.azerty).
  split; [exact Ht|].
  destruct (@display_keys_positional jsstring Sample.mac
              (Sample.mapper Sample.azerty) Sample.getKeyCodeFromKey
              Sample.selectUnderCursor Ht)
    as (d & ds & _ & Hds & Hlen & _).
  exists ds. split; [exact Hds | exact Hlen].
Defined.

Lemma enhance_pointwise_witness :
  services_total (Sample.mapper Sample.azerty) Sample.getKeyCodeFromKey
  /\ exists es,
      outcome (enhanceShortcutsWithMapping Sample.mac
                 (Sample.mapper Sample.azerty) Sample.getKeyCodeFromKey
                 keyboardShortcuts) = Normal es
      /\ length es = 34.
Proof.
  assert (Ht := sample_services_total Sample.azerty).
  split; [exact Ht|].
  destruct (@enhance_pointwise jsstring Sample.mac
              (Sample.mapper Sample.azerty) Sample.getKeyCodeFromKey
              keyboardShortcuts Ht)
    as (es & Hes & Hlen & _).
  exists es. split; [exact Hes | exact Hlen].
Defined.

Lemma enhance_preserves_fields_witness :
  services_total (Sample.mapper Sample.azerty) Sample.getKeyCodeFromKey
  /\ exists es,
      outcome (enhanceShortcutsWithMapping Sample.win
                 (Sample.mapper Sample.azerty) Sample.getKeyCodeFromKey
                 [Sample.undoLastAction]) = Normal es
      /\ Forall (fun e => e_preventDefault e = Some true
                          /\ e_ignore e = None
                          /\ displayKeys e <> None
                          /\ mappedKeys e <> None) es.
Proof.
  assert (Ht := sample_services_total Sample.azerty).
  split; [exact Ht|].
  destruct (@enhance_preserves_fields jsstring Sample.win
              (Sample.mapper Sample.azerty) Sample.getKeyCodeFromKey
              [Sample.undoLastAction] Ht)
    as (es & Hes & HF).
  exists es. split; [exact Hes|].
  inversion HF as [|s e l l' He Hrest]; subst. inversion Hrest; subst.
  destruct He as (_ & _ & _ & _ & _ & Hp & Hi & Hd & Hm).
  constructor; [|constructor]. repeat split; assumption.
Defined.

Lemma no_throw_with_total_services_witness :
  services_total (Sample.mapper Sample.azerty) Sample.getKeyCodeFromKey
  /\ exists es,
      outcome (enhanceShortcutsWithMapping Sample.mac
                 (Sample.mapper Sample.azerty) Sample.getKeyCodeFromKey
                 keyboardShortcuts) = Normal es.
Proof.
  assert (Ht := sample_services_total Sample.azerty).
  split; [exact Ht|].
  destruct (@no_throw_with_total_services jsstring Sample.mac
              (Sample.mapper Sample.azerty) Sample.getKeyCodeFromKey Ht)
    as (_ & Hall & _).
  exact (Hall keyboardShortcuts).
Defined.

(* ================================================================== *)
(** * More on computations: laws of [bind], logs and throws of [mapM] *)
(* ================================================================== *)

Section EffLaws.

Variable K : Type.

Lemma calls_bind A B (m : Eff K A) (f : A -> Eff K B) :
  calls (bind m f)
  = match outcome m with
    | Normal a => calls m ++ calls (f a)
    | Throw => calls m
    end.
Proof.
  destruct m as [log [a|]]; simpl; [destruct (f a) |]; reflexivity.
Qed.

Lemma bind_ret_r A (m : Eff K A) : bind m (fun a => ret a) = m.
Proof.
  destruct m as [log [a|]]; simpl; [rewrite app_nil_r|]; reflexivity.
Qed.

Lemma bind_ext A B (m : Eff K A) (f g : A -> Eff K B) :
  (forall a, f a = g a) -> bind m f = bind m g.
Proof.
  intros H. destruct m as [log [a|]]; simpl; [rewrite H|]; reflexivity.
Qed.

Lemma bind_assoc A B C (m : Eff K A) (f : A -> Eff K B) (g : B -> Eff K C) :
  bind (bind m f) g = bind m (fun a => bind (f a) g).
Proof.
  destruct m as [log [a|]]; simpl; [|reflexivity].
  destruct (f a) as [log1 [b|]]; simpl; [|reflexivity].
  destruct (g b) as [log2 r]. rewrite app_assoc. reflexivity.
Qed.

Lemma mapM_ext A B (f g : A -> Eff K B) (l : list A) :
  (forall a, In a l -> f a = g a) -> mapM f l = mapM g l.
Proof.
  induction l as [|a l IH]; intros H; simpl; [reflexivity|].
  rewrite (H a (or_introl eq_refl)), IH; [reflexivity|].
  intros x Hx. apply H. right. exact Hx.
Qed.

(** [map] over a concatenation: the first part, then the second. *)
Lemma mapM_app A B (f : A -> Eff K B) (l1 l2 : list A) :
  mapM f (l1 ++ l2)
  = v1 <- mapM f l1 ;; v2 <- mapM f l2 ;; ret (v1 ++ v2).
Proof.
  induction l1 as [|a l1 IH]; cbn [mapM app].
  - rewrite bind_ret_l. symmetry. apply bind_ret_r.
  - rewrite bind_assoc. apply bind_ext. intros b.
    rewrite IH, !bind_assoc. apply bind_ext. intros v1.
    rewrite bind_ret_l, bind_assoc. apply bind_ext. intros v2.
    rewrite bind_ret_l. reflexivity.
Qed.

(** [map] throws exactly when the callback throws on some element. *)
Lemma mapM_Throw A B (f : A -> Eff K B) (l : list A) :
  outcome (mapM f l) = Throw
  <-> exists a, In a l /\ outcome (f a) = Throw.
Proof.
  induction l as [|a l IH]; simpl.
  - split; [discriminate | intros (a & [] & _)].
  - rewrite outcome_bind. destruct (outcome (f a)) as [b|] eqn:Ha.
    + rewrite outcome_bind.
      destruct (outcome (mapM f l)) as [bs|] eqn:Hl; simpl.
      * split; [discriminate|].
        intros (x & [<- | Hx] & Hthrow); [congruence|].
        destruct IH as [_ IH].
        assert (E : Normal bs = Throw) by (apply IH; exists x; auto).
        discriminate.
      * split; [|reflexivity]. intros _.
        destruct IH as [IH _]. destruct (IH eq_refl) as (x & Hx & Hthrow).
        exists x. auto.
    + split; [|reflexivity]. intros _. exists a. auto.
Qed.

(** The log of a [map] that returns: the logs of the callbacks, in order. *)
Lemma mapM_calls_Normal A B (f : A -> Eff K B) (l : list A) (vs : list B) :
  outcome (mapM f l) = Normal vs ->
  calls (mapM f l) = flat_map (fun a => calls (f a)) l.
Proof.
  revert vs; induction l as [|a l IH]; intros vs; simpl; [reflexivity|].
  rewrite outcome_bind, calls_bind.
  destruct (outcome (f a)) as [b|]; [|discriminate].
  rewrite outcome_bind, calls_bind.
  destruct (outcome (mapM f l)) as [bs|] eqn:Hl; [|discriminate].
  intros _. simpl. rewrite app_nil_r, (IH bs eq_refl). reflexivity.
Qed.

(** Whatever holds of every call of every callback holds of every call of
    the [map], whether it returns or throws. *)
Lemma mapM_calls_Forall A B (P : Call K -> Prop) (f : A -> Eff K B) l :
  (forall a, In a l -> Forall P (calls (f a))) ->
  Forall P (calls (mapM f l)).
Proof.
  induction l as [|a l IH]; intros H; simpl; [constructor|].
  rewrite calls_bind.
  assert (Ha : Forall P (calls (f a))) by (apply H; left; reflexivity).
  assert (Hl : Forall P (calls (mapM f l)))
    by (apply IH; intros x Hx; apply H; right; exact Hx).
  destruct (outcome (f a)) as [b|]; [|exact Ha].
  apply Forall_app. split; [exact Ha|].
  rewrite calls_bind. destruct (outcome (mapM f l)); [|exact Hl].
  simpl. rewrite app_nil_r. exact Hl.
Qed.

End EffLaws.

(* ================================================================== *)
(** * When the per-key callback calls out, and when it throws *)
(* ================================================================== *)

Section DisplayKeyRuns.

Variable K : Type.
Variable host : Host.
Variable mapper : KeyboardLayoutMapper K.
Variable getKeyCodeFromKey : jsstring -> completion K.

Lemma isFixedKeyName_true_iff key :
  isFixedKeyName host key = true <-> In (toLowerCase host key) fixedKeyNames.
Proof.
  unfold isFixedKeyName. rewrite existsb_exists. split.
  - intros (name & Hin & E). apply eqb_eq in E. rewrite E. exact Hin.
  - intros Hin. exists (toLowerCase host key). split; [exact Hin|].
    apply eqb_eq. reflexivity.
Qed.

Lemma isFixedKeyName_false_iff key :
  isFixedKeyName host key = false <-> ~ In (toLowerCase host key) fixedKeyNames.
Proof.
  rewrite <- isFixedKeyName_true_iff.
  destruct (isFixedKeyName host key); split; congruence.
Qed.

(** The layout-aware branch, run to its end: one call, or two. *)
Lemma displayKey_remapped_run d key :
  ~ In (toLowerCase host key) fixedKeyNames ->
  layoutIsRemapped d = true ->
  displayKey host mapper getKeyCodeFromKey d key
  = match getKeyCodeFromKey key with
    | Throw => ([CallGetKeyCodeFromKey key], Throw)
    | Normal code =>
        ([CallGetKeyCodeFromKey key; CallGetKeyForCode code],
         match getKeyForCode mapper code with
         | Throw => Throw
         | Normal mapped =>
             Normal (if Nat.eqb (length mapped) 1
                     then toUpperCase host mapped else mapped)
         end)
    end.
Proof.
  intros Hnot Hd.
  rewrite (@displayKey_default K host mapper getKeyCodeFromKey d key Hnot), Hd.
  unfold call_getKeyCodeFromKey, call_getKeyForCode, bind, ret.
  destruct (getKeyCodeFromKey key) as [code|]; [|reflexivity].
  destruct (getKeyForCode mapper code); reflexivity.
Qed.

(** The three ways the callback can go. *)
Lemma displayKey_cases d key :
  (In (toLowerCase host key) fixedKeyNames
   /\ exists label, displayKey host mapper getKeyCodeFromKey d key = ret label)
  \/ (~ In (toLowerCase host key) fixedKeyNames
      /\ layoutIsRemapped d = false
      /\ displayKey host mapper getKeyCodeFromKey d key
         = ret (if Nat.eqb (length key) 1 then toUpperCase host key else key))
  \/ (~ In (toLowerCase host key) fixedKeyNames
      /\ layoutIsRemapped d = true).
Proof.
  destruct (isFixedKeyName host key) eqn:Hfix.
  - left. apply isFixedKeyName_true_iff in Hfix. split; [exact Hfix|].
    destruct (@displayKey_fixed_silent K host mapper getKeyCodeFromKey key Hfix)
      as [label Hall].
    exists label. apply Hall.
  - right. apply isFixedKeyName_false_iff in Hfix.
    destruct (layoutIsRemapped d) eqn:Hd.
    + right. split; [exact Hfix | reflexivity].
    + left. split; [exact Hfix|]. split; [reflexivity|].
      rewrite (@displayKey_default K host mapper getKeyCodeFromKey d key Hfix), Hd.
      reflexivity.
Qed.

Lemma displayKey_calls_lookup d key :
  Forall (fun c => isLookupCall c = true)
         (calls (displayKey host mapper getKeyCodeFromKey d key)).
Proof.
  destruct (displayKey_cases d key)
    as [(_ & label & ->) | [(_ & _ & ->) | (Hnot & Hd)]];
    try (simpl; constructor).
  rewrite (@displayKey_remapped_run d key Hnot Hd).
  destruct (getKeyCodeFromKey key); simpl; repeat constructor.
Qed.

(** The log of [getDisplayKeysForShortcut]: the detector first, then
    whatever the callbacks log if the detector returned. *)
Lemma getDisplayKeys_calls shortcut :
  calls (getDisplayKeysForShortcut host mapper getKeyCodeFromKey shortcut)
  = CallGetDetectedLayout
      :: match getDetectedLayout mapper with
         | Normal d =>
             calls (mapM (displayKey host mapper getKeyCodeFromKey d)
                         (keys shortcut))
         | Throw => []
         end.
Proof.
  unfold getDisplayKeysForShortcut. rewrite calls_bind.
  unfold call_getDetectedLayout. simpl.
  destruct (getDetectedLayout mapper); reflexivity.
Qed.

(** X1.  The callback throws in one situation only: the key is outside
    the fixed names, the layout is remapped, and either the code lookup
    throws on the key or the mapper throws on the code it returned. *)
Theorem displayKey_throws_iff d key :
  outcome (displayKey host mapper getKeyCodeFromKey d key) = Throw
  <-> ~ In (toLowerCase host key) fixedKeyNames
      /\ layoutIsRemapped d = true
      /\ (getKeyCodeFromKey key = Throw
          \/ exists code, getKeyCodeFromKey key = Normal code
                          /\ getKeyForCode mapper code = Throw).
Proof.
  destruct (displayKey_cases d key)
    as [(Hfix & label & ->) | [(Hnot & Hd & ->) | (Hnot & Hd)]].
  - split; [discriminate | intros (Hnot & _); contradiction].
  - split; [discriminate | intros (_ & Hd' & _); congruence].
  - rewrite (@displayKey_remapped_run d key Hnot Hd).
    destruct (getKeyCodeFromKey key) as [code|]; simpl.
    + destruct (getKeyForCode mapper code) as [mapped|] eqn:Hm.
      * split; [discriminate|].
        intros (_ & _ & [E | (code' & E & Hthrow)]); [discriminate|].
        inversion E; subst code'. congruence.
      * split; [|reflexivity]. intros _. repeat split; try assumption.
        right. exists code. auto.
    + split; [|reflexivity]. intros _. repeat split; try assumption.
      left. reflexivity.
Qed.

(** X2.  The callback consults no service exactly when the key has a fixed
    name or the layout is not remapped; otherwise its first call is the
    code lookup on the key name. *)
Theorem displayKey_silent_iff d key :
  (calls (displayKey host mapper getKeyCodeFromKey d key) = []
   <-> In (toLowerCase host key) fixedKeyNames \/ layoutIsRemapped d = false)
  /\ (calls (displayKey host mapper getKeyCodeFromKey d key) <> [] ->
      hd_error (calls (displayKey host mapper getKeyCodeFromKey d key))
      = Some (CallGetKeyCodeFromKey key)).
Proof.
  destruct (displayKey_cases d key)
    as [(Hfix & label & ->) | [(Hnot & Hd & ->) | (Hnot & Hd)]].
  - split; [split; auto | intros H; contradiction H; reflexivity].
  - split; [split; auto | intros H; contradiction H; reflexivity].
  - rewrite (@displayKey_remapped_run d key Hnot Hd).
    destruct (getKeyCodeFromKey key) as [code|]; simpl; (split; [|reflexivity]);
      (split; [discriminate | intros [Hin | Hoff]; [contradiction|congruence]]).
Qed.

(** X3.  [getDisplayKeysForShortcut] throws exactly when the detector
    throws, or the detector returns and the callback throws on one of the
    keys of the record. *)
Theorem getDisplayKeys_throws_iff shortcut :
  outcome (getDisplayKeysForShortcut host mapper getKeyCodeFromKey shortcut)
  = Throw
  <-> getDetectedLayout mapper = Throw
      \/ exists d key,
          getDetectedLayout mapper = Normal d
          /\ In key (keys shortcut)
          /\ outcome (displayKey host mapper getKeyCodeFromKey d key) = Throw.
Proof.
  unfold getDisplayKeysForShortcut. rewrite outcome_bind.
  unfold call_getDetectedLayout. simpl outcome at 1.
  destruct (getDetectedLayout mapper) as [d|].
  - rewrite mapM_Throw. split.
    + intros (key & Hin & Hthrow). right. exists d, key. auto.
    + intros [E | (d' & key & E & Hin & Hthrow)]; [discriminate|].
      inversion E; subst d'. exists key. auto.
  - split; [left; reflexivity | reflexivity].
Qed.

(** X4.  Whatever the services do, [getDisplayKeysForShortcut] asks the
    detector first and once; every later call is a per-key lookup, so
    [mapKeys] is never called; and nothing is looked up when the detector
    throws. *)
Theorem getDisplayKeys_call_shape shortcut :
  exists rest,
    calls (getDisplayKeysForShortcut host mapper getKeyCodeFromKey shortcut)
    = CallGetDetectedLayout :: rest
    /\ Forall (fun c => isLookupCall c = true) rest
    /\ (getDetectedLayout mapper = Throw -> rest = []).
Proof.
  rewrite getDisplayKeys_calls. eexists. split; [reflexivity|].
  destruct (getDetectedLayout mapper) as [d|].
  - split; [|discriminate].
    apply mapM_calls_Forall. intros key _. apply displayKey_calls_lookup.
  - split; [constructor | reflexivity].
Qed.

(** X5.  Under a remapped layout, with a code lookup that always returns
    ([g] names its results) and a mapper that always returns, the log of
    [getDisplayKeysForShortcut] is: the detector, then for each key in
    order nothing if its name is fixed, else the lookup of the key followed
    by the mapping of its code. *)
Theorem getDisplayKeys_call_log_remapped
        (g : jsstring -> K) (d : option DetectedLayout) shortcut :
  getDetectedLayout mapper = Normal d ->
  layoutIsRemapped d = true ->
  (forall key, getKeyCodeFromKey key = Normal (g key)) ->
  (forall code, exists mapped, getKeyForCode mapper code = Normal mapped) ->
  calls (getDisplayKeysForShortcut host mapper getKeyCodeFromKey shortcut)
  = CallGetDetectedLayout
      :: flat_map (fun key =>
                     if isFixedKeyName host key then []
                     else [CallGetKeyCodeFromKey key; CallGetKeyForCode (g key)])
                  (keys shortcut).
Proof.
  intros Hdet Hd Hg Hf. rewrite getDisplayKeys_calls, Hdet. f_equal.
  assert (Hrun : forall key,
             exists label,
               displayKey host mapper getKeyCodeFromKey d key
               = (if isFixedKeyName host key then []
                  else [CallGetKeyCodeFromKey key; CallGetKeyForCode (g key)],
                  Normal label)).
  { intros key. destruct (isFixedKeyName host key) eqn:Hfix.
    - apply isFixedKeyName_true_iff in Hfix.
      destruct (@displayKey_fixed_silent K host mapper getKeyCodeFromKey key Hfix)
        as [label Hall].
      exists label. apply Hall.
    - apply isFixedKeyName_false_iff in Hfix.
      rewrite (@displayKey_remapped_run d key Hfix Hd), Hg.
      destruct (Hf (g key)) as [mapped ->]. eexists. reflexivity. }
  destruct (mapM_total (displayKey host mapper getKeyCodeFromKey d)
                       (keys shortcut)) as [ds Hds].
  { intros key _. destruct (Hrun key) as [label ->]. exists label. reflexivity. }
  rewrite (mapM_calls_Normal _ _ Hds).
  apply flat_map_ext. intros key.
  destruct (Hrun key) as [label ->]. reflexivity.
Qed.

End DisplayKeyRuns.

(* ================================================================== *)
(** * Logs and throws of [enhanceShortcutsWithMapping] *)
(* ================================================================== *)

Lemma Forall2_In_r A B (R : A -> B -> Prop) l l' b :
  Forall2 R l l' -> In b l' -> exists a, In a l /\ R a b.
Proof.
  induction 1 as [|x y l l' Hxy H IH]; intros Hb; [contradiction|].
  destruct Hb as [<- | Hb].
  - exists x. split; [left; reflexivity | exact Hxy].
  - destruct (IH Hb) as (a & Ha & HR). exists a. split; [right|]; assumption.
Qed.

Lemma filter_detector_of_lookups K (log : list (Call K)) :
  Forall (fun c => isLookupCall c = true) log ->
  filter isDetectorCall log = [].
Proof.
  induction 1 as [|c log Hc _ IH]; [reflexivity|].
  simpl. rewrite IH. destruct c; simpl in *; congruence.
Qed.

Section EnhanceRuns.

Variable K : Type.
Variable host : Host.
Variable mapper : KeyboardLayoutMapper K.
Variable getKeyCodeFromKey : jsstring -> completion K.

(** The lookups of [shortcut.keys.map(getKeyCodeFromKey)], when it returns:
    one per key, in key order. *)
Lemma lookup_all_calls (ks : list jsstring) codes :
  outcome (mapM (call_getKeyCodeFromKey getKeyCodeFromKey) ks) = Normal codes ->
  calls (mapM (call_getKeyCodeFromKey getKeyCodeFromKey) ks)
  = map CallGetKeyCodeFromKey ks.
Proof.
  intros H. rewrite (mapM_calls_Normal _ _ H). clear H.
  induction ks as [|key ks IH]; cbn [flat_map map]; [reflexivity|].
  rewrite IH. reflexivity.
Qed.

Lemma lookup_all_Normal (ks : list jsstring) codes :
  Forall2 (fun key code => getKeyCodeFromKey key = Normal code) ks codes ->
  outcome (mapM (call_getKeyCodeFromKey getKeyCodeFromKey) ks) = Normal codes.
Proof. intros H. apply mapM_Normal. exact H. Qed.

(** The log of the record callback, whatever the services do. *)
Lemma enhanceShortcut_calls shortcut :
  calls (enhanceShortcut host mapper getKeyCodeFromKey shortcut)
  = match outcome (getDisplayKeysForShortcut host mapper getKeyCodeFromKey
                                             shortcut) with
    | Throw =>
        calls (getDisplayKeysForShortcut host mapper getKeyCodeFromKey shortcut)
    | Normal _ =>
        calls (getDisplayKeysForShortcut host mapper getKeyCodeFromKey shortcut)
        ++ match outcome (mapM (call_getKeyCodeFromKey getKeyCodeFromKey)
                               (keys shortcut)) with
           | Throw =>
               calls (mapM (call_getKeyCodeFromKey getKeyCodeFromKey)
                           (keys shortcut))
           | Normal codes =>
               calls (mapM (call_getKeyCodeFromKey getKeyCodeFromKey)
                           (keys shortcut))
               ++ [CallMapKeys codes]
           end
    end.
Proof.
  unfold enhanceShortcut. rewrite calls_bind.
  destruct (outcome (getDisplayKeysForShortcut host mapper getKeyCodeFromKey
                                               shortcut)); [|reflexivity].
  f_equal. rewrite calls_bind.
  destruct (outcome (mapM (call_getKeyCodeFromKey getKeyCodeFromKey)
                          (keys shortcut))) as [codes|]; [|reflexivity].
  f_equal. rewrite calls_bind. unfold call_mapKeys. simpl.
  destruct (mapKeys mapper codes); reflexivity.
Qed.

Lemma enhanceShortcut_throws_iff shortcut :
  outcome (enhanceShortcut host mapper getKeyCodeFromKey shortcut) = Throw
  <-> outcome (getDisplayKeysForShortcut host mapper getKeyCodeFromKey shortcut)
      = Throw
      \/ (exists key, In key (keys shortcut) /\ getKeyCodeFromKey key = Throw)
      \/ (exists codes,
             Forall2 (fun key code => getKeyCodeFromKey key = Normal code)
                     (keys shortcut) codes
             /\ mapKeys mapper codes = Throw).
Proof.
  unfold enhanceShortcut. rewrite outcome_bind.
  destruct (outcome (getDisplayKeysForShortcut host mapper getKeyCodeFromKey
                                               shortcut)) as [ds|];
    [|split; [left; reflexivity | reflexivity]].
  rewrite outcome_bind.
  destruct (outcome (mapM (call_getKeyCodeFromKey getKeyCodeFromKey)
                          (keys shortcut))) as [codes|] eqn:Hcodes.
  - rewrite outcome_bind. unfold call_mapKeys at 1. simpl outcome at 1.
    destruct (mapKeys mapper codes) as [ms|] eqn:Hms.
    + split; [discriminate|].
      intros [E | [(key & Hin & Hthrow) | (codes' & HF & Hthrow)]].
      * discriminate.
      * assert (E : outcome (mapM (call_getKeyCodeFromKey getKeyCodeFromKey)
                                  (keys shortcut)) = Throw)
          by (apply mapM_Throw; exists key; auto).
        congruence.
      * apply lookup_all_Normal in HF. congruence.
    + split; [|reflexivity]. intros _. right. right.
      exists codes. split; [|exact Hms]. apply mapM_Normal in Hcodes.
      exact Hcodes.
  - split; [|reflexivity]. intros _. right. left.
    apply mapM_Throw in Hcodes as (key & Hin & Hthrow). exists key. auto.
Qed.

Lemma enhanceShortcut_detector_once shortcut e :
  outcome (enhanceShortcut host mapper getKeyCodeFromKey shortcut) = Normal e ->
  length (filter isDetectorCall
                 (calls (enhanceShortcut host mapper getKeyCodeFromKey shortcut)))
  = 1.
Proof.
  intros He. rewrite enhanceShortcut_calls.
  apply enhanceShortcut_Normal in He as (ds & codes & ms & Hds & Hcodes & _ & _).
  apply lookup_all_Normal in Hcodes. rewrite Hds, Hcodes.
  rewrite (lookup_all_calls _ Hcodes), getDisplayKeys_calls.
  apply getDisplayKeys_Normal in Hds as (d & Hd & _). rewrite Hd.
  simpl. rewrite !filter_app.
  rewrite (@filter_detector_of_lookups K
             (calls (mapM (displayKey host mapper getKeyCodeFromKey d)
                          (keys shortcut)))).
  - simpl. f_equal. rewrite length_app. simpl.
    assert (E : filter isDetectorCall
                       (map (@CallGetKeyCodeFromKey K) (keys shortcut)) = []).
    { apply filter_detector_of_lookups. apply Forall_forall.
      intros c Hc. apply in_map_iff in Hc as (k & <- & _). reflexivity. }
    rewrite E. reflexivity.
  - apply mapM_calls_Forall. intros key _. apply displayKey_calls_lookup.
Qed.

(** X6.  When the record callback returns, its log is the log of
    [getDisplayKeysForShortcut], then one code lookup per key of the record
    in key order (fixed names included, whatever the layout), then a single
    [mapKeys] on the codes those lookups returned. *)
Theorem enhanceShortcut_call_log shortcut e :
  outcome (enhanceShortcut host mapper getKeyCodeFromKey shortcut) = Normal e ->
  exists codes,
    Forall2 (fun key code => getKeyCodeFromKey key = Normal code)
            (keys shortcut) codes
    /\ calls (enhanceShortcut host mapper getKeyCodeFromKey shortcut)
       = calls (getDisplayKeysForShortcut host mapper getKeyCodeFromKey shortcut)
         ++ map CallGetKeyCodeFromKey (keys shortcut)
         ++ [CallMapKeys codes].
Proof.
  intros He. rewrite enhanceShortcut_calls.
  apply enhanceShortcut_Normal in He as (ds & codes & ms & Hds & Hcodes & _ & _).
  exists codes. split; [exact Hcodes|].
  apply lookup_all_Normal in Hcodes.
  rewrite Hds, Hcodes, (lookup_all_calls _ Hcodes). reflexivity.
Qed.

(** X7.  With total services the detector is asked once per record: the
    log of [enhanceShortcutsWithMapping] holds as many detector calls as
    there are records. *)
Theorem enhance_detector_calls shortcuts :
  services_total mapper getKeyCodeFromKey ->
  length (filter isDetectorCall
                 (calls (enhanceShortcutsWithMapping host mapper
                                                     getKeyCodeFromKey shortcuts)))
  = length shortcuts.
Proof.
  intros Htot.
  destruct (@enhance_total K host mapper getKeyCodeFromKey shortcuts Htot)
    as [es Hes].
  unfold enhanceShortcutsWithMapping in *.
  rewrite (mapM_calls_Normal _ _ Hes).
  clear Hes es. induction shortcuts as [|s l IH]; [reflexivity|].
  simpl. rewrite filter_app, length_app, IH.
  destruct (@enhanceShortcut_total K host mapper getKeyCodeFromKey s Htot)
    as [e He].
  rewrite (enhanceShortcut_detector_once _ He). reflexivity.
Qed.

(** X8.  Enhancing a concatenation is enhancing the first list, then the
    second, and concatenating the results: same log, same outcome, a throw
    in the first list ending the run before the second is touched. *)
Theorem enhance_app (l1 l2 : list Shortcut) :
  enhanceShortcutsWithMapping host mapper getKeyCodeFromKey (l1 ++ l2)
  = es1 <- enhanceShortcutsWithMapping host mapper getKeyCodeFromKey l1 ;;
    es2 <- enhanceShortcutsWithMapping host mapper getKeyCodeFromKey l2 ;;
    ret (es1 ++ es2).
Proof.
  unfold enhanceShortcutsWithMapping. apply mapM_app.
Qed.

(** X9.  [enhanceShortcutsWithMapping] throws exactly when, for one of the
    records, [getDisplayKeysForShortcut] throws, or the code lookup throws
    on one of its keys, or [mapKeys] throws on the codes of its keys. *)
Theorem enhance_throws_iff shortcuts :
  outcome (enhanceShortcutsWithMapping host mapper getKeyCodeFromKey shortcuts)
  = Throw
  <-> exists shortcut,
      In shortcut shortcuts
      /\ (outcome (getDisplayKeysForShortcut host mapper getKeyCodeFromKey
                                             shortcut) = Throw
          \/ (exists key, In key (keys shortcut)
                          /\ getKeyCodeFromKey key = Throw)
          \/ (exists codes,
                 Forall2 (fun key code => getKeyCodeFromKey key = Normal code)
                         (keys shortcut) codes
                 /\ mapKeys mapper codes = Throw)).
Proof.
  unfold enhanceShortcutsWithMapping. rewrite mapM_Throw.
  split; intros (s & Hin & H); exists s; (split; [exact Hin|]);
    apply enhanceShortcut_throws_iff; exact H.
Qed.

(** X10.  If [mapKeys] keeps the number of its inputs, every enhanced
    record has as many [displayKeys] and as many [mappedKeys] as keys. *)
Theorem enhanced_lists_align shortcuts es :
  (forall codes labels,
      mapKeys mapper codes = Normal labels -> length labels = length codes) ->
  outcome (enhanceShortcutsWithMapping host mapper getKeyCodeFromKey shortcuts)
  = Normal es ->
  Forall (fun e =>
            exists ds ms,
              displayKeys e = Some ds /\ mappedKeys e = Some ms
              /\ length ds = length (e_keys e)
              /\ length ms = length (e_keys e))
         es.
Proof.
  intros Hlen Hes. apply mapM_Normal in Hes.
  induction Hes as [|s e l l' He _ IH]; constructor; [|exact IH].
  apply enhanceShortcut_Normal in He as (ds & codes & ms & Hds & Hcodes & Hms & ->).
  exists ds, ms. simpl. repeat split.
  - apply getDisplayKeys_Normal in Hds as (d & _ & HF).
    eapply Forall2_length_eq; eassumption.
  - rewrite (Hlen _ _ Hms). eapply Forall2_length_eq; eassumption.
Qed.

(** X11.  Under a remapped layout, if [mapKeys] maps each code as
    [getKeyForCode] does, then for a key outside the fixed names the display
    label of an enhanced record is its mapped key at the same position,
    upper-cased when that is one code unit long. *)
Theorem display_label_follows_mapped_key shortcuts es e d i key :
  getDetectedLayout mapper = Normal d ->
  layoutIsRemapped d = true ->
  (forall codes labels,
      mapKeys mapper codes = Normal labels ->
      Forall2 (fun code label => getKeyForCode mapper code = Normal label)
              codes labels) ->
  outcome (enhanceShortcutsWithMapping host mapper getKeyCodeFromKey shortcuts)
  = Normal es ->
  In e es ->
  nth_error (e_keys e) i = Some key ->
  ~ In (toLowerCase host key) fixedKeyNames ->
  exists ds ms mapped,
    displayKeys e = Some ds /\ mappedKeys e = Some ms
    /\ nth_error ms i = Some mapped
    /\ nth_error ds i
       = Some (if Nat.eqb (length mapped) 1 then toUpperCase host mapped
               else mapped).
Proof.
  intros Hdet Hd Hpoint Hes Hin Hi Hnot. apply mapM_Normal in Hes.
  destruct (@Forall2_In_r _ _ _ _ _ e Hes Hin) as (s & _ & He).
  apply enhanceShortcut_Normal in He as (ds & codes & ms & Hds & Hcodes & Hms & ->).
  simpl in Hi. exists ds, ms.
  apply getDisplayKeys_Normal in Hds as (d' & Hd' & HF).
  assert (d' = d) by congruence; subst d'.
  destruct (@Forall2_nth_error_l _ _ _ _ _ i _ HF Hi) as (label & Hl & Hrun).
  destruct (@Forall2_nth_error_l _ _ _ _ _ i _ Hcodes Hi) as (code & Hc & Hcode).
  destruct (@Forall2_nth_error_l _ _ _ _ _ i _ (Hpoint codes ms Hms) Hc)
    as (mapped & Hm & Hmapped).
  exists mapped. repeat split; try assumption.
  rewrite (@displayKey_remapped_run K host mapper getKeyCodeFromKey d key
             Hnot Hd), Hcode in Hrun.
  simpl in Hrun. rewrite Hmapped in Hrun. congruence.
Qed.

End EnhanceRuns.

(* ================================================================== *)
(** * What the result does not depend on *)
(* ================================================================== *)

Lemma displayKey_same_switch K host (m1 m2 : KeyboardLayoutMapper K)
      (getKeyCodeFromKey : jsstring -> completion K) d1 d2 key :
  layoutIsRemapped d1 = layoutIsRemapped d2 ->
  (forall code, getKeyForCode m1 code = getKeyForCode m2 code) ->
  displayKey host m1 getKeyCodeFromKey d1 key
  = displayKey host m2 getKeyCodeFromKey d2 key.
Proof.
  intros Hsw Hmap. unfold displayKey. cbv zeta. rewrite Hsw.
  repeat match goal with
         | |- (if ?b then _ else _) = (if ?b then _ else _) =>
             destruct b; [reflexivity|]
         end.
  destruct (layoutIsRemapped d2); [|reflexivity].
  apply bind_ext. intros code. unfold call_getKeyForCode. rewrite Hmap.
  reflexivity.
Qed.

Lemma displayKey_same_platform K lower upper p1 p2
      (mapper : KeyboardLayoutMapper K)
      (getKeyCodeFromKey : jsstring -> completion K) d key :
  lower key <> js "mod" ->
  lower key <> js "alt" ->
  displayKey {| toLowerCase := lower; toUpperCase := upper; platform := p1 |}
             mapper getKeyCodeFromKey d key
  = displayKey {| toLowerCase := lower; toUpperCase := upper; platform := p2 |}
               mapper getKeyCodeFromKey d key.
Proof.
  intros Hmod Halt. apply eqb_neq in Hmod, Halt.
  unfold displayKey. cbn [toLowerCase toUpperCase platform]. cbv zeta.
  rewrite Hmod, Halt. reflexivity.
Qed.

(** X12.  The platform string reaches the labels through [mod] and [alt]
    only: on a record none of whose keys lower-cases to one of these two
    names, two hosts that differ in the platform string alone give the same
    log and the same outcome. *)
Theorem platform_matters_for_mod_and_alt_only
        K lower upper p1 p2 (mapper : KeyboardLayoutMapper K)
        (getKeyCodeFromKey : jsstring -> completion K) shortcut :
  (forall key, In key (keys shortcut) ->
               lower key <> js "mod" /\ lower key <> js "alt") ->
  getDisplayKeysForShortcut
    {| toLowerCase := lower; toUpperCase := upper; platform := p1 |}
    mapper getKeyCodeFromKey shortcut
  = getDisplayKeysForShortcut
      {| toLowerCase := lower; toUpperCase := upper; platform := p2 |}
      mapper getKeyCodeFromKey shortcut.
Proof.
  intros H. unfold getDisplayKeysForShortcut. apply bind_ext. intros d.
  apply mapM_ext. intros key Hin. destruct (H key Hin) as [Hmod Halt].
  apply displayKey_same_platform; assumption.
Qed.

(** X13.  The detected layout acts as a switch and nothing more: its
    identifier is never handed to a service, so two mappers that map codes
    alike and whose detected layouts fall on the same side of the guard
    give the same log and the same outcome, whatever the identifiers. *)
Theorem layout_identifier_is_only_a_switch
        K host (m1 m2 : KeyboardLayoutMapper K)
        (getKeyCodeFromKey : jsstring -> completion K) d1 d2 shortcut :
  getDetectedLayout m1 = Normal d1 ->
  getDetectedLayout m2 = Normal d2 ->
  layoutIsRemapped d1 = layoutIsRemapped d2 ->
  (forall code, getKeyForCode m1 code = getKeyForCode m2 code) ->
  getDisplayKeysForShortcut host m1 getKeyCodeFromKey shortcut
  = getDisplayKeysForShortcut host m2 getKeyCodeFromKey shortcut.
Proof.
  intros H1 H2 Hsw Hmap.
  unfold getDisplayKeysForShortcut, call_getDetectedLayout.
  rewrite H1, H2. unfold bind.
  rewrite (mapM_ext (displayKey host m1 getKeyCodeFromKey d1)
                    (displayKey host m2 getKeyCodeFromKey d2) (keys shortcut));
    [reflexivity|].
  intros key _. apply displayKey_same_switch; assumption.
Qed.

(* ================================================================== *)
(** * More runs on the samples *)
(* ================================================================== *)

(** With a code lookup that throws and the default layout,
    [getDisplayKeysForShortcut] returns and the enhancement throws at its
    first lookup, before [mapKeys]. *)
Example throwing_lookup_runs :
  getDisplayKeysForShortcut Sample.win (Sample.mapper Sample.qwerty)
                            throwingGetKeyCodeFromKey Sample.replyAll
  = ([CallGetDetectedLayout], Normal [js "A"])
  /\ enhanceShortcutsWithMapping Sample.win (Sample.mapper Sample.qwerty)
                                 throwingGetKeyCodeFromKey
                                 [Sample.replyAll; Sample.closeCompose]
     = ([CallGetDetectedLayout; CallGetKeyCodeFromKey (js "a")], Throw).
Proof. split; reflexivity. Qed.

Lemma sample_mapKeys_length d codes labels :
  mapKeys (Sample.mapper d) codes = Normal labels ->
  length labels = length codes.
Proof.
  simpl. intros H. inversion H. apply length_map.
Defined.

Lemma sample_mapKeys_pointwise d codes labels :
  mapKeys (Sample.mapper d) codes = Normal labels ->
  Forall2 (fun code label => getKeyForCode (Sample.mapper d) code = Normal label)
          codes labels.
Proof.
  simpl. intros H. inversion H. clear.
  induction codes as [|c codes IH]; simpl; constructor;
    [reflexivity | exact IH].
Defined.

Lemma getDisplayKeys_call_log_remapped_witness :
  getDetectedLayout (Sample.mapper Sample.azerty) = Normal Sample.azerty
  /\ layoutIsRemapped Sample.azerty = true
  /\ (forall key,
         Sample.getKeyCodeFromKey key
         = Normal (if Nat.eqb (length key) 1
                   then js "Key" ++ map ascii_upper key else key))
  /\ (forall code, exists mapped,
         getKeyForCode (Sample.mapper Sample.azerty) code = Normal mapped)
  /\ calls (getDisplayKeysForShortcut Sample.win (Sample.mapper Sample.azerty)
                                      Sample.getKeyCodeFromKey
                                      Sample.undoLastAction)
     = [CallGetDetectedLayout; CallGetKeyCodeFromKey (js "z");
        CallGetKeyForCode (js "KeyZ")].
Proof.
  assert (Hdet : getDetectedLayout (Sample.mapper Sample.azerty)
                 = Normal Sample.azerty) by reflexivity.
  assert (Hd : layoutIsRemapped Sample.azerty = true) by reflexivity.
  assert (Hg : forall key,
             Sample.getKeyCodeFromKey key
             = Normal (if Nat.eqb (length key) 1
                       then js "Key" ++ map ascii_upper key else key))
    by (intros key; reflexivity).
  assert (Hf : forall code, exists mapped,
               getKeyForCode (Sample.mapper Sample.azerty) code = Normal mapped)
    by (intros code; eexists; reflexivity).
  split; [exact Hdet|]. split; [exact Hd|]. split; [exact Hg|].
  split; [exact Hf|].
  rewrite (@getDisplayKeys_call_log_remapped jsstring Sample.win
             (Sample.mapper Sample.azerty) Sample.getKeyCodeFromKey
             (fun key => if Nat.eqb (length key) 1
                         then js "Key" ++ map ascii_upper key else key)
             Sample.azerty Sample.undoLastAction Hdet Hd Hg Hf).
  reflexivity.
Defined.

Lemma enhanceShortcut_call_log_witness :
  outcome (enhanceShortcut Sample.win (Sample.mapper Sample.azerty)
                           Sample.getKeyCodeFromKey Sample.undoLastAction)
  = Normal {| e_keys := [js "mod"; js "z"];
              e_action := js "undoLastAction";
              e_type := single;
              e_description := js "Undo last action";
              e_scope := js "global";
              e_preventDefault := Some true;
              e_ignore := None;
              mappedKeys := Some [js "mod"; js "w"];
              displayKeys := Some [js "Ctrl"; js "W"] |}
  /\ exists codes,
      Forall2 (fun key code => Sample.getKeyCodeFromKey key = Normal code)
              [js "mod"; js "z"] codes
      /\ calls (enhanceShortcut Sample.win (Sample.mapper Sample.azerty)
                                Sample.getKeyCodeFromKey Sample.undoLastAction)
         = [CallGetDetectedLayout;
            CallGetKeyCodeFromKey (js "z"); CallGetKeyForCode (js "KeyZ");
            CallGetKeyCodeFromKey (js "mod"); CallGetKeyCodeFromKey (js "z")]
           ++ [CallMapKeys codes].
Proof.
  assert (He : outcome (enhanceShortcut Sample.win (Sample.mapper Sample.azerty)
                          Sample.getKeyCodeFromKey Sample.undoLastAction)
               = Normal {| e_keys := [js "mod"; js "z"];
                           e_action := js "undoLastAction";
                           e_type := single;
                           e_description := js "Undo last action";
                           e_scope := js "global";
                           e_preventDefault := Some true;
                           e_ignore := None;
                           mappedKeys := Some [js "mod"; js "w"];
                           displayKeys := Some [js "Ctrl"; js "W"] |})
    by reflexivity.
  split; [exact He|].
  destruct (@enhanceShortcut_call_log jsstring Sample.win
              (Sample.mapper Sample.azerty) Sample.getKeyCodeFromKey
              Sample.undoLastAction _ He) as (codes & HF & Hlog).
  exists codes. split; [exact HF|]. rewrite Hlog. reflexivity.
Defined.

Lemma enhance_detector_calls_witness :
  services_total (Sample.mapper Sample.azerty) Sample.getKeyCodeFromKey
  /\ length (filter isDetectorCall
               (calls (enhanceShortcutsWithMapping Sample.mac
                         (Sample.mapper Sample.azerty)
                         Sample.getKeyCodeFromKey keyboardShortcuts)))
     = 34.
Proof.
  assert (Ht := sample_services_total Sample.azerty).
  split; [exact Ht|].
  rewrite (@enhance_detector_calls jsstring Sample.mac
             (Sample.mapper Sample.azerty) Sample.getKeyCodeFromKey
             keyboardShortcuts Ht).
  reflexivity.
Defined.

Lemma enhanced_lists_align_witness :
  (forall codes labels,
      mapKeys (Sample.mapper Sample.azerty) codes = Normal labels ->
      length labels = length codes)
  /\ exists es,
      outcome (enhanceShortcutsWithMapping Sample.mac
                 (Sample.mapper Sample.azerty) Sample.getKeyCodeFromKey
                 keyboardShortcuts) = Normal es
      /\ Forall (fun e =>
                   exists ds ms,
                     displayKeys e = Some ds /\ mappedKeys e = Some ms
                     /\ length ds = length (e_keys e)
                     /\ length ms = length (e_keys e))
                es.
Proof.
  assert (Hlen := @sample_mapKeys_length Sample.azerty).
  split; [exact Hlen|].
  destruct (@enhance_total jsstring Sample.mac (Sample.mapper Sample.azerty)
              Sample.getKeyCodeFromKey keyboardShortcuts
              (sample_services_total Sample.azerty)) as [es Hes].
  exists es. split; [exact Hes|].
  exact (@enhanced_lists_align jsstring Sample.mac (Sample.mapper Sample.azerty)
           Sample.getKeyCodeFromKey keyboardShortcuts es Hlen Hes).
Defined.

Lemma display_label_follows_mapped_key_witness :
  getDetectedLayout (Sample.mapper Sample.azerty) = Normal Sample.azerty
  /\ layoutIsRemapped Sample.azerty = true
  /\ (forall codes labels,
         mapKeys (Sample.mapper Sample.azerty) codes = Normal labels ->
         Forall2 (fun code label =>
                    getKeyForCode (Sample.mapper Sample.azerty) code
                    = Normal label)
                 codes labels)
  /\ exists e,
      outcome (enhanceShortcutsWithMapping Sample.win
                 (Sample.mapper Sample.azerty) Sample.getKeyCodeFromKey
                 [Sample.replyAll]) = Normal [e]
      /\ nth_error (e_keys e) 0 = Some (js "a")
      /\ ~ In (toLowerCase Sample.win (js "a")) fixedKeyNames
      /\ exists ds ms mapped,
          displayKeys e = Some ds /\ mappedKeys e = Some ms
          /\ nth_error ms 0 = Some mapped
          /\ nth_error ds 0
             = Some (if Nat.eqb (length mapped) 1
                     then toUpperCase Sample.win mapped else mapped).
Proof.
  assert (Hdet : getDetectedLayout (Sample.mapper Sample.azerty)
                 = Normal Sample.azerty) by reflexivity.
  assert (Hd : layoutIsRemapped Sample.azerty = true) by reflexivity.
  assert (Hpoint := @sample_mapKeys_pointwise Sample.azerty).
  split; [exact Hdet|]. split; [exact Hd|]. split; [exact Hpoint|].
  eexists.
  assert (Hnot : ~ In (toLowerCase Sample.win (js "a")) fixedKeyNames).
  { vm_compute. intuition discriminate. }
  split; [reflexivity|]. split; [reflexivity|]. split; [exact Hnot|].
  eapply (@display_label_follows_mapped_key jsstring Sample.win
            (Sample.mapper Sample.azerty) Sample.getKeyCodeFromKey
            [Sample.replyAll] _ _ Sample.azerty 0 (js "a") Hdet Hd Hpoint).
  - reflexivity.
  - left. reflexivity.
  - reflexivity.
  - exact Hnot.
Defined.

Lemma platform_matters_for_mod_and_alt_only_witness :
  (forall key, In key (keys Sample.closeCompose) ->
               map ascii_lower key <> js "mod"
               /\ map ascii_lower key <> js "alt")
  /\ getDisplayKeysForShortcut Sample.mac (Sample.mapper Sample.azerty)
                               Sample.getKeyCodeFromKey Sample.closeCompose
     = getDisplayKeysForShortcut Sample.win (Sample.mapper Sample.azerty)
                                 Sample.getKeyCodeFromKey Sample.closeCompose.
Proof.
  assert (H : forall key, In key (keys Sample.closeCompose) ->
                          map ascii_lower key <> js "mod"
                          /\ map ascii_lower key <> js "alt").
  { intros key [<- | []]. split; discriminate. }
  split; [exact H|].
  exact (@platform_matters_for_mod_and_alt_only jsstring
           (map ascii_lower) (map ascii_upper) (js "MacIntel") (js "Win32")
           (Sample.mapper Sample.azerty) Sample.getKeyCodeFromKey
           Sample.closeCompose H).
Defined.

Lemma layout_identifier_is_only_a_switch_witness :
  getDetectedLayout (Sample.mapper Sample.azerty) = Normal Sample.azerty
  /\ getDetectedLayout (Sample.mapper (Some {| layout := js "dvorak" |}))
     = Normal (Some {| layout := js "dvorak" |})
  /\ layoutIsRemapped Sample.azerty
     = layoutIsRemapped (Some {| layout := js "dvorak" |})
  /\ (forall code,
         getKeyForCode (Sample.mapper Sample.azerty) code
         = getKeyForCode (Sample.mapper (Some {| layout := js "dvorak" |})) code)
  /\ getDisplayKeysForShortcut Sample.win (Sample.mapper Sample.azerty)
                               Sample.getKeyCodeFromKey Sample.replyAll
     = getDisplayKeysForShortcut Sample.win
         (Sample.mapper (Some {| layout := js "dvorak" |}))
         Sample.getKeyCodeFromKey Sample.replyAll.
Proof.
  assert (H1 : getDetectedLayout (Sample.mapper Sample.azerty)
               = Normal Sample.azerty) by reflexivity.
  assert (H2 : getDetectedLayout
                 (Sample.mapper (Some {| layout := js "dvorak" |}))
               = Normal (Some {| layout := js "dvorak" |})) by reflexivity.
  assert (Hsw : layoutIsRemapped Sample.azerty
                = layoutIsRemapped (Some {| layout := js "dvorak" |}))
    by reflexivity.
  assert (Hmap : forall code,
             getKeyForCode (Sample.mapper Sample.azerty) code
             = getKeyForCode
                 (Sample.mapper (Some {| layout := js "dvorak" |})) code)
    by (intros code; reflexivity).
  split; [exact H1|]. split; [exact H2|]. split; [exact Hsw|].
  split; [exact Hmap|].
  exact (@layout_identifier_is_only_a_switch jsstring Sample.win
           (Sample.mapper Sample.azerty)
           (Sample.mapper (Some {| layout := js "dvorak" |}))
           Sample.getKeyCodeFromKey Sample.azerty
           (Some {| layout := js "dvorak" |}) Sample.replyAll
           H1 H2 Hsw Hmap).
Defined.
